(** * A shallow embedding of the workflow engine (backend/workflow_engine.py)

  The engine walks a graph of typed nodes for one inbound message.  Python
  dictionaries keep their insertion order and the engine depends on it
  (start-node fallback, order of template replacements), so they are
  association lists here.  The set of visited node ids is a [gset].
  Exceptions are explicit: a computation returns [Ok v] or [Raise e]. *)

From Stdlib Require Import String Ascii ZArith QArith DecimalString Lia.
From stdpp Require Import gmap strings list.

Open Scope string_scope.

(** ** Python strings *)

Module PyStr.

(** [str.lower] on the ASCII range. *)
Definition lower_ascii (c : ascii) : ascii :=
  let n := nat_of_ascii c in
  if (65 <=? n)%nat && (n <=? 90)%nat then ascii_of_nat (n + 32) else c.

Fixpoint lower (s : string) : string :=
  match s with
  | EmptyString => EmptyString
  | String c s' => String (lower_ascii c) (lower s')
  end.

(** [s.startswith(p)] *)
Fixpoint startswith (p s : string) : bool :=
  match p, s with
  | EmptyString, _ => true
  | String a p', String b s' => Ascii.eqb a b && startswith p' s'
  | String _ _, EmptyString => false
  end.

(** [sub in s]: substring test. *)
Fixpoint contains (sub s : string) : bool :=
  startswith sub s ||
  match s with
  | EmptyString => false
  | String _ s' => contains sub s'
  end.

Fixpoint drop (k : nat) (s : string) : string :=
  match k, s with
  | S k', String _ s' => drop k' s'
  | _, _ => s
  end.

(** The scan of [s.replace(old, new)] for a non-empty [old]: occurrences
    are taken left to right and do not overlap; [skip] counts the
    characters of a matched occurrence still to be passed over. *)
Fixpoint replace_from (old new : string) (skip : nat) (s : string) : string :=
  match s with
  | EmptyString => EmptyString
  | String c s' =>
      match skip with
      | S k => replace_from old new k s'
      | O =>
          if startswith old s
          then new +:+ replace_from old new (String.length old - 1) s'
          else String c (replace_from old new 0 s')
      end
  end.

(** With an empty [old], Python inserts [new] before every character and
    at the end. *)
Fixpoint interleave (new s : string) : string :=
  match s with
  | EmptyString => new
  | String c s' => new +:+ String c (interleave new s')
  end.

Definition replace (s old new : string) : string :=
  match old with
  | EmptyString => interleave new s
  | String _ _ => replace_from old new 0 s
  end.

End PyStr.

(** ** Python values held by a context or a node's configuration

  The scalars of JSON without floating point numbers. *)

Inductive pyvalue : Type :=
  | PNone
  | PBool (b : bool)
  | PInt (z : Z)
  | PStr (s : string).

(** [a == b]; a [bool] is an [int] in Python, so [True == 1]. *)
Definition py_eq (a b : pyvalue) : bool :=
  match a, b with
  | PNone, PNone => true
  | PBool x, PBool y => Bool.eqb x y
  | PBool x, PInt z | PInt z, PBool x => (z =? (if x then 1 else 0))%Z
  | PInt x, PInt y => (x =? y)%Z
  | PStr x, PStr y => (x =? y)%string
  | _, _ => false
  end.

(** [str(v)] *)
Definition py_str (v : pyvalue) : string :=
  match v with
  | PNone => "None"
  | PBool true => "True"
  | PBool false => "False"
  | PInt z => NilZero.string_of_int (Z.to_int z)
  | PStr s => s
  end.

(** ** Insertion-ordered dictionaries *)

Module Dict.

Definition t (V : Type) : Type := list (string * V).

Fixpoint get {V} (d : t V) (k : string) : option V :=
  match d with
  | [] => None
  | (k', v) :: d' => if (k' =? k)%string then Some v else get d' k
  end.

(** [d[k] = v]: an existing key keeps its position, a new key goes last. *)
Fixpoint set {V} (d : t V) (k : string) (v : V) : t V :=
  match d with
  | [] => [(k, v)]
  | (k', v') :: d' =>
      if (k' =? k)%string then (k', v) :: d' else (k', v') :: set d' k v
  end.

Definition keys {V} (d : t V) : list string := map fst d.

Definition is_empty {V} (d : t V) : bool :=
  match d with [] => true | _ :: _ => false end.

End Dict.

Definition context := Dict.t pyvalue.

(** ** Exceptions *)

Inductive exn : Type :=
  | re_error (pattern : string)
  | port_error (what : string).

Inductive result (A : Type) : Type :=
  | Ok (a : A)
  | Raise (e : exn).

Arguments Ok {A} a.
Arguments Raise {A} e.

Definition bind {A B} (m : result A) (k : A -> result B) : result B :=
  match m with
  | Ok a => k a
  | Raise e => Raise e
  end.

(** [try: m  except Exception: h] *)
Definition try_except {A} (m : result A) (h : exn -> A) : A :=
  match m with
  | Ok a => a
  | Raise e => h e
  end.

(** ** The workflow data

    The fields hold values of the types the engine expects.  A field with a
    value of another type (a label that is JSON null, say), on which the
    source raises a type error, is outside this model. *)

Record node_data : Type := {
  label : option string;
  conditionType : option string;
  keywords : option (list string);
  pattern : option string;
  intents : option (Dict.t (list string));
  variable : option string;
  value : option pyvalue;
  systemPrompt : option string;
  model : option string;
  temperature : option Q
}.

(** [node.get("data", {})] of a node without configuration. *)
Definition no_data : node_data :=
  {| label := None; conditionType := None; keywords := None; pattern := None;
     intents := None; variable := None; value := None; systemPrompt := None;
     model := None; temperature := None |}.

Record node : Type := {
  node_id : string;
  node_type : option string;
  data : node_data
}.

Record edge : Type := {
  source : option string;
  target : option string;
  condition : option string
}.

(** The history is handed to the port as it is. *)
Definition history := list (string * string).

(** [LLMIntegration.generate_response(prompt, system_prompt,
  conversation_history, model, temperature)]: an external call that
  returns text or raises. *)
Definition port : Type :=
  string -> string -> option history -> option string -> Q -> result string.

(** [re.search(pattern, message, re.IGNORECASE)]: [Raise] when the pattern
  does not compile, otherwise whether a match was found. *)
Definition regex_search : Type := string -> string -> result bool.


(** ** The engine *)

Record WorkflowEngine : Type := {
  nodes : Dict.t node;
  edges : list edge;
  llm_integration : option port;
  start_node_id : option string
}.

(** Truth value of an optional id: [None] and the empty string are false. *)
Definition truthy (i : option string) : bool :=
  match i with
  | Some (String _ _) => true
  | _ => false
  end.

(** The dictionary comprehension [{node["id"]: node for node in ...}]. *)
Definition nodes_by_id (workflow_nodes : list node) : Dict.t node :=
  fold_left (fun d n => Dict.set d (node_id n) n) workflow_nodes [].

(** The search for the first node whose type is ["start"]. *)
Fixpoint find_start (items : Dict.t node) : option string :=
  match items with
  | [] => None
  | (k, n) :: rest =>
      if decide (node_type n = Some "start") then Some k else find_start rest
  end.

Definition resolve_start (ns : Dict.t node) : option string :=
  let found := find_start ns in
  if negb (truthy found) && negb (Dict.is_empty ns)
  then head (Dict.keys ns)
  else found.

Definition __init__ (workflow_nodes : list node) (workflow_edges : list edge)
    (llm : option port) : WorkflowEngine :=
  let ns := nodes_by_id workflow_nodes in
  {| nodes := ns; edges := workflow_edges; llm_integration := llm;
     start_node_id := resolve_start ns |}.

(** *** Template rendering *)

Definition placeholder (key : string) : string := "{" +:+ key +:+ "}".

(** The loop [for key, value in context.items(): t = t.replace(...)], shared
    by the message node and the generation node. *)
Definition replace_variables (template : string) (ctx : context) : string :=
  fold_left (fun t kv => PyStr.replace t (placeholder kv.1) (py_str kv.2))
            ctx template.

Definition _process_message_node (n : node) (ctx : context) : string :=
  replace_variables (default "" (label (data n))) ctx.

Definition ai_unavailable : string := "AI processing is not available.".
Definition ai_fallback : string :=
  "Sorry, I encountered an error while processing your request.".
Definition default_system_prompt : string := "You are a helpful assistant.".

Definition _process_ai_node (eng : WorkflowEngine) (n : node) (message : string)
    (conversation_history : option history) (ctx : context) : string :=
  match llm_integration eng with
  | None => ai_unavailable
  | Some llm =>
      let node_data := data n in
      let system_prompt :=
        replace_variables (default default_system_prompt (systemPrompt node_data)) ctx in
      try_except
        (llm message system_prompt conversation_history (model node_data)
             (default (7 # 10)%Q (temperature node_data)))
        (fun _ => ai_fallback)
  end.

(** *** Condition evaluation *)

(** [for keyword in keywords: if keyword.lower() in message.lower(): ...] *)
Fixpoint any_keyword (kws : list string) (message : string) : bool :=
  match kws with
  | [] => false
  | keyword :: rest =>
      if PyStr.contains (PyStr.lower keyword) (PyStr.lower message)
      then true
      else any_keyword rest message
  end.

Fixpoint first_intent (its : Dict.t (list string)) (message : string)
    : option string :=
  match its with
  | [] => None
  | (intent_name, kws) :: rest =>
      if any_keyword kws message then Some intent_name
      else first_intent rest message
  end.

Definition bool_label (b : bool) : string := if b then "true" else "false".

Section Evaluator.

Variable re_search : regex_search.

Definition _evaluate_condition (n : node) (message : string) (ctx : context)
    : result string :=
  let node_data := data n in
  let condition_type := default "keyword" (conditionType node_data) in
  if (condition_type =? "keyword")%string then
    Ok (bool_label (any_keyword (default [] (keywords node_data)) message))
  else if (condition_type =? "regex")%string then
    match default "" (pattern node_data) with
    | EmptyString => Ok "false"
    | String _ _ as p => bind (re_search p message) (fun m => Ok (bool_label m))
    end
  else if (condition_type =? "intent")%string then
    Ok (default "default" (first_intent (default [] (intents node_data)) message))
  else if (condition_type =? "variable")%string then
    let variable_name := default "" (variable node_data) in
    let variable_value := default PNone (Dict.get ctx variable_name) in
    let expected_value := default PNone (value node_data) in
    Ok (bool_label (py_eq variable_value expected_value))
  else Ok "default".

(** *** Edge selection *)

(** The edge loop of a condition node: the first edge leaving [current]
    whose tag is the outcome or ["default"]. *)
Fixpoint next_on_condition (es : list edge) (current condition_result : string)
    : option string :=
  match es with
  | [] => None
  | e :: rest =>
      if decide (source e = Some current) then
        if bool_decide (condition e = Some condition_result)
           || bool_decide (condition e = Some "default")
        then target e
        else next_on_condition rest current condition_result
      else next_on_condition rest current condition_result
  end.

(** The edge loop of every other node: the first edge leaving [current]. *)
Fixpoint next_unconditional (es : list edge) (current : string) : option string :=
  match es with
  | [] => None
  | e :: rest =>
      if decide (source e = Some current) then target e
      else next_unconditional rest current
  end.

(** *** The traversal loop *)

(** [trace] is not in the source: it records, oldest first, the ids of the
    nodes the loop has dispatched on. *)
Record loop_state : Type := {
  current_node_id : option string;
  response : option string;
  visited_nodes : gset string;
  trace : list string
}.

Inductive flow : Type :=
  | Next (st : loop_state)
  | Break (st : loop_state)
  | Fail (e : exn) (st : loop_state).

(** [while current_node_id and current_node_id not in visited_nodes] *)
Definition guard (st : loop_state) : option string :=
  match current_node_id st with
  | Some (String _ _ as cur) =>
      if decide (cur ∈ visited_nodes st) then None else Some cur
  | _ => None
  end.

Variable eng : WorkflowEngine.
Variable message : string.
Variable conversation_history : option history.
Variable ctx : context.

Definition body (st : loop_state) (cur : string) : flow :=
  let visited := {[cur]} ∪ visited_nodes st in
  match Dict.get (nodes eng) cur with
  | None =>
      Break {| current_node_id := Some cur; response := response st;
               visited_nodes := visited; trace := trace st |}
  | Some current_node =>
      let tr := (trace st ++ [cur])%list in
      let proceed (resp : option string) :=
        Next {| current_node_id := next_unconditional (edges eng) cur;
                response := resp; visited_nodes := visited; trace := tr |} in
      let ty := default "" (node_type current_node) in
      if (ty =? "message")%string then
        proceed (Some (_process_message_node current_node ctx))
      else if (ty =? "condition")%string then
        match _evaluate_condition current_node message ctx with
        | Raise e =>
            Fail e {| current_node_id := Some cur; response := response st;
                      visited_nodes := visited; trace := tr |}
        | Ok condition_result =>
            Next {| current_node_id :=
                      next_on_condition (edges eng) cur condition_result;
                    response := response st;
                    visited_nodes := visited; trace := tr |}
        end
      else if (ty =? "ai")%string then
        proceed (Some (_process_ai_node eng current_node message
                         conversation_history ctx))
      else proceed (response st)
  end.

(** The loop; [None] when [fuel] iterations were not enough. *)
Fixpoint run_loop (fuel : nat) (st : loop_state)
    : option (loop_state * option exn) :=
  match guard st with
  | None => Some (st, None)
  | Some cur =>
      match fuel with
      | O => None
      | S fuel' =>
          match body st cur with
          | Next st' => run_loop fuel' st'
          | Break st' => Some (st', None)
          | Fail e st' => Some (st', Some e)
          end
      end
  end.

End Evaluator.

(** *** [process_message] *)

Definition no_workflow : string :=
  "Sorry, this bot doesn't have a configured workflow.".
Definition default_response : string := "I'm not sure how to respond to that.".

Definition start_state (eng : WorkflowEngine) : loop_state :=
  {| current_node_id := start_node_id eng; response := None;
     visited_nodes := ∅; trace := [] |}.

(** The test that returns early, before the context is touched. *)
Definition not_configured (eng : WorkflowEngine) : bool :=
  Dict.is_empty (nodes eng) || negb (truthy (start_node_id eng)).

(** The context the loop runs with: [context["user_message"] = message]
    on the caller's dictionary, or on a new one. *)
Definition with_message (ctx : option context) (message : string) : context :=
  Dict.set (default [] ctx) "user_message" (PStr message).

(** The loop of one call, with the state it ends in. *)
Definition traverse (re_search : regex_search) (eng : WorkflowEngine)
    (fuel : nat) (message : string) (conversation_history : option history)
    (ctx : option context) : option (loop_state * option exn) :=
  run_loop re_search eng message conversation_history
           (with_message ctx message) fuel (start_state eng).

(** [None] only if the fuel given to the loop ran out. *)
Definition process_message_fuel (re_search : regex_search)
    (eng : WorkflowEngine) (fuel : nat) (message : string)
    (conversation_history : option history) (ctx : option context)
    : option (result (string * context)) :=
  if not_configured eng then Some (Ok (no_workflow, default [] ctx))
  else
    match traverse re_search eng fuel message conversation_history ctx with
    | None => None
    | Some (_, Some e) => Some (Raise e)
    | Some (st, None) =>
        Some (Ok (default default_response (response st),
                  with_message ctx message))
    end.

(** One more iteration than there are nodes is always enough
    (see [run_loop_terminates]). *)
Definition process_message (re_search : regex_search) (eng : WorkflowEngine)
    (message : string) (conversation_history : option history)
    (ctx : option context) : option (result (string * context)) :=
  process_message_fuel re_search eng (S (length (nodes eng))) message
                       conversation_history ctx.

(** ** What a visited node contributes to the response

    Used to state which node's text a call returns; the engine does not
    use these. *)

Definition node_output (eng : WorkflowEngine) (message : string)
    (conversation_history : option history) (ctx : context) (cur : string)
    : option string :=
  match Dict.get (nodes eng) cur with
  | None => None
  | Some n =>
      let ty := default "" (node_type n) in
      if (ty =? "message")%string then Some (_process_message_node n ctx)
      else if (ty =? "ai")%string
      then Some (_process_ai_node eng n message conversation_history ctx)
      else None
  end.

(** The text of the last message or generation node of a trace. *)
Definition last_output (eng : WorkflowEngine) (message : string)
    (conversation_history : option history) (ctx : context)
    (tr : list string) : option string :=
  last (omap (node_output eng message conversation_history ctx) tr).

(** The ids of the graph, as a set. *)
Definition node_ids (eng : WorkflowEngine) : gset string :=
  list_to_set (Dict.keys (nodes eng)).

(** An edge the loop of a condition node stops at. *)
Definition eligible (cur lbl : string) (e : edge) : Prop :=
  source e = Some cur /\
  (condition e = Some lbl \/ condition e = Some "default").

(** The state after the iteration on [cur]. *)
Definition after (st : loop_state) (cur : string) (next resp : option string)
    : loop_state :=
  {| current_node_id := next; response := resp;
     visited_nodes := {[cur]} ∪ visited_nodes st;
     trace := (trace st ++ [cur])%list |}.

(** What holds of every state the loop reaches: no id is dispatched on
    twice, every such id is a visited node of the graph, and the pending
    response is the text of the last message or generation node so far. *)
Definition well_traced (eng : WorkflowEngine) (message : string)
    (conversation_history : option history) (ctx : context)
    (st : loop_state) : Prop :=
  NoDup (trace st)
  /\ (forall x, x ∈ trace st -> x ∈ visited_nodes st /\ x ∈ node_ids eng)
  /\ response st = last_output eng message conversation_history ctx (trace st).

(** The nodes not visited yet; it bounds the iterations still to come. *)
Definition remaining (eng : WorkflowEngine) (st : loop_state) : nat :=
  size (node_ids eng ∖ visited_nodes st).

(** The states the loop passes through: [reaches st st'] when iterations
    of the loop that go on lead from [st] to [st']. *)
Inductive reaches (re_search : regex_search) (eng : WorkflowEngine)
    (message : string) (conversation_history : option history) (ctx : context)
    : loop_state -> loop_state -> Prop :=
  | reaches_here st :
      reaches re_search eng message conversation_history ctx st st
  | reaches_next st cur st1 st2 :
      guard st = Some cur ->
      body re_search eng message conversation_history ctx st cur = Next st1 ->
      reaches re_search eng message conversation_history ctx st1 st2 ->
      reaches re_search eng message conversation_history ctx st st2.

(** ** Definitions that follow the specification's wording

    They are compared with the code above; the engine does not use them. *)

Module Spec.

(** Edge choice of a condition node as section 4.6 words it: the first edge
    leaving the node whose tag equals the label, and only without such an
    edge the first one tagged ["default"]. *)
Fixpoint first_tagged (es : list edge) (current tag : string) : option edge :=
  match es with
  | [] => None
  | e :: rest =>
      if decide (source e = Some current) then
        if bool_decide (condition e = Some tag) then Some e
        else first_tagged rest current tag
      else first_tagged rest current tag
  end.

Definition select_edge (es : list edge) (current lbl : string) : option edge :=
  match first_tagged es current lbl with
  | Some e => Some e
  | None => first_tagged es current "default"
  end.

(** The name between an opening brace and the next closing brace. *)
Fixpoint until_close (s : string) : option string :=
  match s with
  | EmptyString => None
  | String c s' =>
      if Ascii.eqb c "}" then Some EmptyString
      else option_map (String c) (until_close s')
  end.

(** Rendering as section 4.4 words it: one pass over the template, every
    [{name}] with [name] in the context replaced by the text of its value,
    the inserted text not looked at again. *)
Fixpoint render_from (ctx : context) (skip : nat) (s : string) : string :=
  match s with
  | EmptyString => EmptyString
  | String c s' =>
      match skip with
      | S k => render_from ctx k s'
      | O =>
          let keep := String c (render_from ctx 0 s') in
          if Ascii.eqb c "{" then
            match until_close s' with
            | Some name =>
                match Dict.get ctx name with
                | Some v => py_str v +:+ render_from ctx (S (String.length name)) s'
                | None => keep
                end
            | None => keep
            end
          else keep
      end
  end.

Definition render (template : string) (ctx : context) : string :=
  render_from ctx 0 template.

End Spec.

(** ** Sample data *)

Module Sample.

(** A fragment of [re.search] with [re.IGNORECASE], enough for the examples:
    the pattern ["("] does not compile (an unterminated group), and a pattern
    without metacharacters is found by a case-insensitive substring search.
    It is used with such patterns only. *)
Definition re_search : regex_search := fun p m =>
  if (p =? "(")%string then Raise (re_error p)
  else Ok (PyStr.contains (PyStr.lower p) (PyStr.lower m)).

Definition failing_port : port := fun _ _ _ _ _ => Raise (port_error "timeout").

Definition mk_node (i ty : string) (d : node_data) : node :=
  {| node_id := i; node_type := Some ty; data := d |}.

Definition mk_edge (s t : string) (c : option string) : edge :=
  {| source := Some s; target := Some t; condition := c |}.

Definition message_data (text : string) : node_data :=
  {| label := Some text; conditionType := None; keywords := None;
     pattern := None; intents := None; variable := None; value := None;
     systemPrompt := None; model := None; temperature := None |}.

Definition keyword_data (kws : list string) : node_data :=
  {| label := None; conditionType := Some "keyword"; keywords := Some kws;
     pattern := None; intents := None; variable := None; value := None;
     systemPrompt := None; model := None; temperature := None |}.

Definition regex_data (p : string) : node_data :=
  {| label := None; conditionType := Some "regex"; keywords := None;
     pattern := Some p; intents := None; variable := None; value := None;
     systemPrompt := None; model := None; temperature := None |}.


(** The workflow of the module's own example ([__main__]). *)
Definition example_nodes : list node :=
  [ mk_node "1" "start" (message_data "Start Conversation");
    mk_node "2" "condition" (keyword_data ["hello"; "hi"; "hey"]);
    mk_node "3" "message" (message_data "Hello! How can I help you today?");
    mk_node "4" "message"
            (message_data "I didn't understand that. Can you rephrase?") ].

Definition example_edges : list edge :=
  [ mk_edge "1" "2" None;
    mk_edge "2" "3" (Some "true");
    mk_edge "2" "4" (Some "false") ].

Definition example_engine : WorkflowEngine :=
  __init__ example_nodes example_edges None.

(** The same nodes, with a ["default"] edge listed before the ["true"] one. *)
Definition default_first_edges : list edge :=
  [ mk_edge "1" "2" None;
    mk_edge "2" "4" (Some "default");
    mk_edge "2" "3" (Some "true") ].

Definition default_first_engine : WorkflowEngine :=
  __init__ example_nodes default_first_edges None.

(** Two nodes on a cycle. *)
Definition cycle_engine : WorkflowEngine :=
  __init__ [ mk_node "A" "message" (message_data "a");
             mk_node "B" "message" (message_data "b") ]
           [ mk_edge "A" "B" None; mk_edge "B" "A" None ] None.

(** A generation node whose port fails, followed by a start-like node. *)
Definition failing_engine : WorkflowEngine :=
  __init__ [ mk_node "g" "ai" no_data; mk_node "end" "note" no_data ]
           [ mk_edge "g" "end" None ] (Some failing_port).

(** A start node with the empty id, listed second. *)
Definition empty_id_nodes : list node :=
  [ mk_node "a" "message" (message_data "first");
    mk_node "" "start" no_data ].

End Sample.

(** ** Text within the ASCII range

    On such text [PyStr.lower] is Python's [str.lower]. *)

Definition ascii_char (c : ascii) : bool := (nat_of_ascii c <? 128)%nat.

Fixpoint is_ascii (s : string) : bool :=
  match s with
  | EmptyString => true
  | String c s' => ascii_char c && is_ascii s'
  end.

(** ** The language-model integration (backend/llm_integration.py)

    [_process_ai_node] calls [LLMIntegration.generate_response].  What lies
    outside the module is a record of oracles: the environment, the OpenAI
    client and the HTTP client. *)

Module LLM.

(** What the module reads of a [requests] response: the status, the body,
    and [response.json()["completion"]], which can raise. *)
Record http_response : Type := {
  status_code : Z;
  text : string;
  completion : result string
}.

Record runtime : Type := {
  (** [os.getenv(name)] *)
  getenv : string -> option string;
  (** [openai.ChatCompletion.create(model, messages, temperature,
      max_tokens)] followed by [.choices[0].message.content], with the key
      that was set. *)
  chat_completion :
    string -> string -> list (string * string) -> Q -> Z -> result string;
  (** [requests.post(url, headers, json)] for the Anthropic endpoint: key,
      prompt, model, [max_tokens_to_sample], temperature. *)
  requests_post : string -> string -> string -> Z -> Q -> result http_response
}.

Record LLMIntegration : Type := {
  provider : string;
  api_key : string
}.

(** [str(e)] *)
Definition exn_str (e : exn) : string :=
  match e with
  | re_error p => p
  | port_error what => what
  end.

(** [raise ValueError(msg)] *)
Definition ValueError {A} (msg : string) : result A := Raise (port_error msg).

(** Truth value of an optional string: [None] and [""] are false. *)
Definition nonempty (s : option string) : option string :=
  match s with
  | Some (String _ _ as x) => Some x
  | _ => None
  end.

Definition __init__ (rt : runtime) (provider_arg : string)
    (api_key_arg : option string) : result LLMIntegration :=
  let p := PyStr.lower provider_arg in
  bind
    match nonempty api_key_arg with
    | Some k => Ok (Some k)
    | None =>
        if (p =? "openai")%string then Ok (getenv rt "OPENAI_API_KEY")
        else if (p =? "anthropic")%string then Ok (getenv rt "ANTHROPIC_API_KEY")
        else ValueError ("Unsupported provider: " +:+ provider_arg)
    end
    (fun key =>
       match nonempty key with
       | Some k => Ok {| provider := p; api_key := k |}
       | None =>
           ValueError ("API key for " +:+ provider_arg +:+
                       " not provided and not found in environment variables")
       end).

Definition error_text (what : string) : string :=
  "Error generating response: " +:+ what.

(** The import of the client inside the function is taken to succeed. *)
Definition _generate_openai_response (rt : runtime) (self : LLMIntegration)
    (prompt : string) (system_prompt : option string)
    (conversation_history : option history) (model : string)
    (temperature : Q) (max_tokens : Z) : string :=
  let messages :=
    (match nonempty system_prompt with
     | Some sp => [("system", sp)]
     | None => []
     end
     ++ default [] conversation_history
     ++ [("user", prompt)])%list in
  try_except
    (chat_completion rt (api_key self) model messages temperature max_tokens)
    (fun e => error_text (exn_str e)).

Definition nl : string := String (ascii_of_nat 10) EmptyString.

(** The loop over the history: only the roles ["user"] and ["assistant"]
    are written, the others are passed over.  Every entry has a role and a
    content; an entry without one, on which the source raises a key error
    before its [try], is outside this model. *)
Fixpoint format_history (h : history) : string :=
  match h with
  | [] => EmptyString
  | (role, content) :: rest =>
      (if (role =? "user")%string then "Human: " +:+ content +:+ nl +:+ nl
       else if (role =? "assistant")%string
       then "Assistant: " +:+ content +:+ nl +:+ nl
       else EmptyString)
      +:+ format_history rest
  end.

Definition format_prompt (prompt : string) (system_prompt : option string)
    (conversation_history : option history) : string :=
  match nonempty system_prompt with
  | Some sp => sp +:+ nl +:+ nl
  | None => EmptyString
  end
  +:+ format_history (default [] conversation_history)
  +:+ "Human: " +:+ prompt +:+ nl +:+ nl +:+ "Assistant:".

Definition _generate_anthropic_response (rt : runtime) (self : LLMIntegration)
    (prompt : string) (system_prompt : option string)
    (conversation_history : option history) (model : string)
    (temperature : Q) (max_tokens : Z) : string :=
  let formatted_prompt := format_prompt prompt system_prompt conversation_history in
  try_except
    (bind (requests_post rt (api_key self) formatted_prompt model max_tokens
                         temperature)
       (fun response =>
          if (status_code response =? 200)%Z then completion response
          else
            Ok (error_text ("Error " +:+
                            NilZero.string_of_int (Z.to_int (status_code response))
                            +:+ ": " +:+ text response))))
    (fun e => error_text (exn_str e)).

Definition generate_response (rt : runtime) (self : LLMIntegration)
    (prompt : string) (system_prompt : option string)
    (conversation_history : option history) (model : option string)
    (temperature : Q) (max_tokens : Z) : result string :=
  if (provider self =? "openai")%string then
    Ok (_generate_openai_response rt self prompt system_prompt
          conversation_history (default "gpt-3.5-turbo" (nonempty model))
          temperature max_tokens)
  else if (provider self =? "anthropic")%string then
    Ok (_generate_anthropic_response rt self prompt system_prompt
          conversation_history (default "claude-2" (nonempty model))
          temperature max_tokens)
  else ValueError ("Unsupported provider: " +:+ provider self).

(** The call [_process_ai_node] makes: keyword arguments, [max_tokens] left
    at its default. *)
Definition as_port (rt : runtime) (self : LLMIntegration) : port :=
  fun prompt system_prompt conversation_history model temperature =>
    generate_response rt self prompt (Some system_prompt) conversation_history
                      model temperature 500.

End LLM.

(** Oracles for the examples of the integration: no key in the environment
    but Anthropic's, an OpenAI client that times out, an endpoint that
    answers 529. *)
Module SampleLLM.

Definition rt : LLM.runtime :=
  {| LLM.getenv := fun name =>
       if (name =? "ANTHROPIC_API_KEY")%string then Some "sk-ant" else None;
     LLM.chat_completion := fun _ _ _ _ _ => Raise (port_error "timed out");
     LLM.requests_post := fun _ _ _ _ _ =>
       Ok {| LLM.status_code := 529; LLM.text := "overloaded";
             LLM.completion := Raise (port_error "'completion'") |} |}.


Definition other_provider : LLM.LLMIntegration :=
  {| LLM.provider := "mistral"; LLM.api_key := "sk-test" |}.

Definition ai_engine (self : LLM.LLMIntegration) : WorkflowEngine :=
  __init__ [ Sample.mk_node "g" "ai" no_data ] [] (Some (LLM.as_port rt self)).

End SampleLLM.

(** A start node followed by a condition whose pattern does not compile. *)
Module SampleFlow.

Definition regex_after_start : WorkflowEngine :=
  __init__ [ Sample.mk_node "s" "start" no_data;
             Sample.mk_node "c" "condition" (Sample.regex_data "(") ]
           [ Sample.mk_edge "s" "c" None ] None.

End SampleFlow.

(** * Properties *)

(** ** Strings *)

Section StringFacts.

Implicit Types (s old new pre post : string) (c : ascii).

Lemma append_cons c s1 s2 : String c s1 +:+ s2 = String c (s1 +:+ s2).
Proof. reflexivity. Qed.

Lemma append_nil_l s : "" +:+ s = s.
Proof. reflexivity. Qed.

Lemma append_nil_r s : s +:+ "" = s.
Proof. induction s as [|c s IH]; [reflexivity|]. now rewrite append_cons, IH. Qed.

Lemma append_assoc s1 s2 s3 : (s1 +:+ s2) +:+ s3 = s1 +:+ (s2 +:+ s3).
Proof.
  induction s1 as [|c s1 IH]; [reflexivity|].
  now rewrite !append_cons, IH.
Qed.

Lemma startswith_append old s : PyStr.startswith old (old +:+ s) = true.
Proof.
  induction old as [|c old IH]; [reflexivity|].
  rewrite append_cons. cbn [PyStr.startswith].
  now rewrite Ascii.eqb_refl, IH.
Qed.

Lemma drop_append s1 s2 : PyStr.drop (String.length s1) (s1 +:+ s2) = s2.
Proof.
  induction s1 as [|c s1 IH]; [destruct s2; reflexivity|].
  rewrite append_cons. exact IH.
Qed.

(** Passing over [k] characters is the same as dropping them first. *)
Lemma replace_from_drop old new k s :
  PyStr.replace_from old new k s = PyStr.replace_from old new 0 (PyStr.drop k s).
Proof.
  revert k; induction s as [|c s IH]; intros [|k]; try reflexivity.
  cbn [PyStr.drop]. rewrite <- IH. reflexivity.
Qed.

(** A pattern that does not occur leaves the text as it is. *)
Lemma replace_from_absent old new s :
  PyStr.contains old s = false -> PyStr.replace_from old new 0 s = s.
Proof.
  induction s as [|c s IH]; [reflexivity|].
  intros H. cbn [PyStr.contains] in H.
  apply orb_false_iff in H as [Hp Hc].
  cbn [PyStr.replace_from]. rewrite Hp, (IH Hc). reflexivity.
Qed.

Lemma replace_absent s old new :
  old <> "" -> PyStr.contains old s = false -> PyStr.replace s old new = s.
Proof.
  destruct old as [|c old]; [congruence|].
  intros _ H. now apply replace_from_absent.
Qed.

(** An occurrence at the front is replaced and the scan goes on behind it:
    the inserted text is not scanned. *)
Lemma replace_from_here old new s :
  old <> "" ->
  PyStr.replace_from old new 0 (old +:+ s) = new +:+ PyStr.replace_from old new 0 s.
Proof.
  destruct old as [|c old]; [congruence|]. intros _.
  pose proof (startswith_append (String c old) s) as Hp.
  rewrite append_cons in *.
  cbn [PyStr.replace_from]. rewrite Hp, replace_from_drop.
  cbn [String.length]. rewrite Nat.sub_1_r. cbn [Nat.pred].
  rewrite drop_append. reflexivity.
Qed.

(** Characters that cannot start the pattern are copied. *)
Lemma replace_from_skip_prefix c old new pre s :
  PyStr.contains (String c "") pre = false ->
  PyStr.replace_from (String c old) new 0 (pre +:+ s)
  = pre +:+ PyStr.replace_from (String c old) new 0 s.
Proof.
  induction pre as [|d pre IH]; intros H; [reflexivity|].
  cbn [PyStr.contains PyStr.startswith] in H.
  apply orb_false_iff in H as [Hd Hc].
  rewrite andb_true_r in Hd.
  rewrite !append_cons.
  cbn [PyStr.replace_from PyStr.startswith].
  rewrite Hd, (IH Hc). reflexivity.
Qed.

End StringFacts.

(** ** Template rendering *)

Section Rendering.

Implicit Types (template : string) (ctx : context) (k : string) (v : pyvalue).

Lemma placeholder_cons k : placeholder k = String "{" (k +:+ "}").
Proof. reflexivity. Qed.

Lemma placeholder_nonempty k : placeholder k <> "".
Proof. discriminate. Qed.

Lemma replace_variables_nil template : replace_variables template [] = template.
Proof. reflexivity. Qed.

Lemma replace_variables_cons template k v ctx :
  replace_variables template ((k, v) :: ctx)
  = replace_variables (PyStr.replace template (placeholder k) (py_str v)) ctx.
Proof. reflexivity. Qed.

Lemma replace_variables_app template ctx1 ctx2 :
  replace_variables template (ctx1 ++ ctx2)%list
  = replace_variables (replace_variables template ctx1) ctx2.
Proof. unfold replace_variables. apply fold_left_app. Qed.

(** A template in which no key of the context occurs as a placeholder is
    rendered to itself. *)
Lemma replace_variables_absent template ctx :
  (forall k v, (k, v) ∈ ctx -> PyStr.contains (placeholder k) template = false) ->
  replace_variables template ctx = template.
Proof.
  induction ctx as [|[k v] ctx IH]; intros H; [reflexivity|].
  rewrite replace_variables_cons, replace_absent.
  - apply IH. intros k' v' Hin. apply (H k' v'). now right.
  - apply placeholder_nonempty.
  - apply (H k v). now left.
Qed.

(** One entry: the first placeholder of its key is replaced by the text of
    the value, and the scan continues behind the inserted text. *)
Lemma replace_placeholder pre k new post :
  PyStr.contains "{" pre = false ->
  PyStr.replace (pre +:+ placeholder k +:+ post) (placeholder k) new
  = pre +:+ new +:+ PyStr.replace post (placeholder k) new.
Proof.
  intros Hpre. rewrite placeholder_cons. cbn [PyStr.replace].
  rewrite replace_from_skip_prefix by exact Hpre.
  rewrite <- placeholder_cons.
  rewrite replace_from_here by apply placeholder_nonempty.
  reflexivity.
Qed.

Lemma replace_placeholder_alone k new :
  PyStr.replace (placeholder k) (placeholder k) new = new.
Proof.
  pose proof (replace_placeholder "" k new "" eq_refl) as H.
  rewrite append_nil_l, append_nil_r in H.
  rewrite H, append_nil_l. cbn. apply append_nil_r.
Qed.

End Rendering.

Section FirstOccurrence.

Implicit Types (s a b old new init pre post k : string) (z : ascii).

Lemma length_append s1 s2 :
  String.length (s1 +:+ s2) = String.length s1 + String.length s2.
Proof.
  induction s1 as [|c s1 IH]; [reflexivity|].
  rewrite append_cons. cbn [String.length]. now rewrite IH.
Qed.

(** Whether [a +:+ b] starts with [old] is decided inside [a] when [a] is at
    least as long as [old]. *)
Lemma startswith_append_long old a b :
  String.length old <= String.length a ->
  PyStr.startswith old (a +:+ b) = PyStr.startswith old a.
Proof.
  revert a. induction old as [|c old IH]; intros a Hlen; [reflexivity|].
  destruct a as [|d a]; [cbn in Hlen; lia|].
  rewrite append_cons. cbn [PyStr.startswith].
  rewrite IH; [reflexivity|]. cbn [String.length] in Hlen. lia.
Qed.

(** The leftmost occurrence of the pattern: no occurrence begins inside
    [pre], which is the case exactly when the pattern does not occur in
    [pre] followed by the pattern without its last character. *)
Lemma replace_from_first_occurrence init z new pre post :
  PyStr.contains (init +:+ String z "") (pre +:+ init) = false ->
  PyStr.replace_from (init +:+ String z "") new 0
                     (pre +:+ (init +:+ String z "") +:+ post)
  = pre +:+ new +:+ PyStr.replace_from (init +:+ String z "") new 0 post.
Proof.
  set (old := init +:+ String z "").
  assert (Hold : old <> "") by (unfold old; destruct init; discriminate).
  induction pre as [|c pre IH]; intros H.
  - rewrite !append_nil_l. now apply replace_from_here.
  - rewrite append_cons in H. cbn [PyStr.contains] in H.
    apply orb_false_iff in H as [Hs Hc].
    assert (Hs' : PyStr.startswith old (String c pre +:+ old +:+ post) = false).
    { unfold old at 2. rewrite (append_assoc init), <- (append_assoc (String c pre)).
      rewrite startswith_append_long; [now rewrite append_cons|].
      unfold old. rewrite !length_append. cbn [String.length]. lia. }
    rewrite !append_cons in *. cbn [PyStr.replace_from].
    rewrite Hs', (IH Hc). reflexivity.
Qed.

(** The same for the placeholder of a key. *)
Lemma replace_first_placeholder pre k new post :
  PyStr.contains (placeholder k) (pre +:+ "{" +:+ k) = false ->
  PyStr.replace (pre +:+ placeholder k +:+ post) (placeholder k) new
  = pre +:+ new +:+ PyStr.replace post (placeholder k) new.
Proof.
  intros H.
  pose proof (replace_from_first_occurrence (String "{" k) "}" new pre post) as E.
  rewrite !append_cons, !append_nil_l in *. rewrite placeholder_cons in *.
  cbn [PyStr.replace]. now apply E.
Qed.

End FirstOccurrence.

(** C3 (as amended). Rendering is one literal replacement per context
    entry, in the context's insertion order, each applied to the text the
    previous one left: (1) adding an entry at the end of the context adds one
    replacement at the end; (2) a template in which no key of the context
    occurs between braces is returned as it is, so placeholders of absent
    names stay; (3) for one entry, the leftmost placeholder of its key,
    wherever it stands in the template and whatever other braces come before
    it, is replaced by the text of the value, and the replacement goes on
    behind the inserted text, which is not scanned again for that key; (4)
    but a value inserted for one key is scanned for the placeholders of the
    keys that come later: with the context [{k1: "{k2}", k2: v}] the
    template ["{k1}"] renders to the text of [v]. *)
Theorem replace_variables_is_sequential :
  forall (template : string) (ctx : context),
    (forall k v,
        replace_variables template (ctx ++ [(k, v)])%list
        = PyStr.replace (replace_variables template ctx) (placeholder k) (py_str v))
    /\ ((forall k v, (k, v) ∈ ctx ->
                     PyStr.contains (placeholder k) template = false) ->
        replace_variables template ctx = template)
    /\ (forall pre k v,
          PyStr.contains (placeholder k) (pre +:+ "{" +:+ k) = false ->
          replace_variables (pre +:+ placeholder k +:+ template) [(k, v)]
          = pre +:+ py_str v +:+ replace_variables template [(k, v)])
    /\ (forall k1 k2 v,
          k1 <> k2 ->
          replace_variables (placeholder k1)
                            [(k1, PStr (placeholder k2)); (k2, v)]
          = py_str v).
Proof.
  intros template ctx. repeat split.
  - intros k v. now rewrite replace_variables_app.
  - apply replace_variables_absent.
  - intros pre k v Hpre.
    rewrite !replace_variables_cons, !replace_variables_nil.
    now apply replace_first_placeholder.
  - intros k1 k2 v _.
    rewrite !replace_variables_cons, replace_variables_nil.
    cbn [py_str]. now rewrite !replace_placeholder_alone.
Qed.

Lemma replace_variables_is_sequential_witness :
  replace_variables "{topic} {name}, {name}!" [("name", PStr "Sam")]
  = "{topic} Sam, Sam!"
  /\ replace_variables "Hi {name}, you said {topic}"
       [("name", PStr "Sam"); ("topic", PStr "hello")]
     = "Hi Sam, you said hello"
  /\ replace_variables "{a}" [("a", PStr "{b}"); ("b", PStr "X")] = "X".
Proof.
  split; [|split].
  - pose proof (replace_variables_is_sequential ", {name}!"
                  [("name", PStr "Sam")]) as (_ & _ & Hone & _).
    change "{topic} {name}, {name}!"
      with ("{topic} " +:+ placeholder "name" +:+ ", {name}!").
    rewrite (Hone "{topic} " "name" (PStr "Sam") eq_refl).
    pose proof (replace_variables_is_sequential "!"
                  [("name", PStr "Sam")]) as (_ & Habsent & Hone' & _).
    change ", {name}!" with (", " +:+ placeholder "name" +:+ "!").
    rewrite (Hone' ", " "name" (PStr "Sam") eq_refl).
    rewrite Habsent; [reflexivity|].
    intros k v Hin. apply list_elem_of_singleton in Hin.
    injection Hin as -> ->. reflexivity.
  - pose proof (replace_variables_is_sequential "Hi {name}, you said {topic}"
                  [("name", PStr "Sam")]) as (Hseq & _).
    change [("name", PStr "Sam"); ("topic", PStr "hello")]
      with ([("name", PStr "Sam")] ++ [("topic", PStr "hello")])%list.
    rewrite Hseq.
    pose proof (replace_variables_is_sequential ", you said {topic}"
                  [("name", PStr "Sam")]) as (_ & Habsent & Hone & _).
    change "Hi {name}, you said {topic}"
      with ("Hi " +:+ placeholder "name" +:+ ", you said {topic}").
    rewrite (Hone "Hi " "name" (PStr "Sam") eq_refl).
    rewrite Habsent.
    + reflexivity.
    + intros k v Hin. apply list_elem_of_singleton in Hin.
      injection Hin as -> ->. reflexivity.
  - pose proof (replace_variables_is_sequential "" []) as (_ & _ & _ & Hlater).
    apply (Hlater "a" "b" (PStr "X")). discriminate.
Defined.

(** C3, the claim as stated fails: a value inserted for [{a}] that reads
    [{b}] is replaced in its turn when [b] comes later in the context, where
    a single pass would leave it. *)
Lemma substituted_value_is_rescanned :
  let ctx := [("a", PStr "{b}"); ("b", PStr "X")] in
  let n := Sample.mk_node "m" "message" (Sample.message_data "{a}") in
  _process_message_node n ctx = "X"
  /\ PyStr.contains "{b}" (_process_message_node n ctx) = false
  /\ Spec.render "{a}" ctx = "{b}".
Proof. repeat split. Qed.

(** ** Edge selection at a condition node *)

Section EdgeChoice.

Implicit Types (es pre post : list edge) (e : edge) (cur lbl : string).

Lemma next_on_condition_skip es e cur lbl :
  ~ eligible cur lbl e ->
  next_on_condition (e :: es) cur lbl = next_on_condition es cur lbl.
Proof.
  intros H. cbn [next_on_condition].
  destruct (decide (source e = Some cur)) as [Hs|]; [|reflexivity].
  destruct (bool_decide (condition e = Some lbl)) eqn:H1.
  - apply bool_decide_eq_true in H1. exfalso. apply H. split; auto.
  - destruct (bool_decide (condition e = Some "default")) eqn:H2; [|reflexivity].
    apply bool_decide_eq_true in H2. exfalso. apply H. split; auto.
Qed.

Lemma next_on_condition_take es e cur lbl :
  eligible cur lbl e -> next_on_condition (e :: es) cur lbl = target e.
Proof.
  intros [Hs Hc]. cbn [next_on_condition].
  rewrite decide_True by exact Hs.
  destruct Hc as [Hc|Hc].
  - now rewrite (bool_decide_eq_true_2 _ Hc).
  - rewrite (bool_decide_eq_true_2 _ Hc). now rewrite orb_true_r.
Qed.

(** The first eligible edge is the one taken. *)
Lemma next_on_condition_first pre e post cur lbl :
  eligible cur lbl e ->
  (forall e', e' ∈ pre -> ~ eligible cur lbl e') ->
  next_on_condition (pre ++ e :: post)%list cur lbl = target e.
Proof.
  intros He. induction pre as [|e0 pre IH]; intros Hpre.
  - now apply next_on_condition_take.
  - cbn [app]. rewrite next_on_condition_skip.
    + apply IH. intros e' Hin. apply Hpre. now right.
    + apply Hpre. now left.
Qed.

Lemma next_on_condition_none es cur lbl :
  (forall e, e ∈ es -> ~ eligible cur lbl e) ->
  next_on_condition es cur lbl = None.
Proof.
  induction es as [|e0 es IH]; intros H; [reflexivity|].
  rewrite next_on_condition_skip.
  - apply IH. intros e Hin. apply H. now right.
  - apply H. now left.
Qed.

Lemma first_tagged_skip es e cur tag :
  ~ (source e = Some cur /\ condition e = Some tag) ->
  Spec.first_tagged (e :: es) cur tag = Spec.first_tagged es cur tag.
Proof.
  intros H. cbn [Spec.first_tagged].
  destruct (decide (source e = Some cur)) as [Hs|]; [|reflexivity].
  destruct (bool_decide (condition e = Some tag)) eqn:H1; [|reflexivity].
  apply bool_decide_eq_true in H1. exfalso. auto.
Qed.

Lemma first_tagged_take es e cur tag :
  source e = Some cur -> condition e = Some tag ->
  Spec.first_tagged (e :: es) cur tag = Some e.
Proof.
  intros Hs Hc. cbn [Spec.first_tagged].
  rewrite decide_True by exact Hs.
  now rewrite (bool_decide_eq_true_2 _ Hc).
Qed.

Lemma first_tagged_Some es cur tag e :
  Spec.first_tagged es cur tag = Some e ->
  e ∈ es /\ source e = Some cur /\ condition e = Some tag.
Proof.
  induction es as [|e0 es IH]; [discriminate|].
  cbn [Spec.first_tagged].
  destruct (decide (source e0 = Some cur)) as [Hs|].
  - destruct (bool_decide (condition e0 = Some tag)) eqn:H1.
    + apply bool_decide_eq_true in H1. intros [= <-].
      split; [now left | auto].
    + intros H. destruct (IH H) as (Hin & ?). split; [now right | auto].
  - intros H. destruct (IH H) as (Hin & ?). split; [now right | auto].
Qed.

(** Where no ["default"] edge of the node comes before an edge tagged with
    the label, the loop takes the edge the specification names. *)
Lemma next_on_condition_agrees es cur lbl :
  (forall pre d post,
      es = (pre ++ d :: post)%list ->
      source d = Some cur -> condition d = Some "default" ->
      forall e, e ∈ post -> source e = Some cur -> condition e <> Some lbl) ->
  next_on_condition es cur lbl = Spec.select_edge es cur lbl ≫= target.
Proof.
  unfold Spec.select_edge.
  induction es as [|e0 es IH]; intros H; [reflexivity|].
  assert (IH' : next_on_condition es cur lbl
                = match Spec.first_tagged es cur lbl with
                  | Some e => Some e
                  | None => Spec.first_tagged es cur "default"
                  end ≫= target).
  { apply IH. intros pre d post -> Hs Hd e Hin.
    apply (H (e0 :: pre) d post eq_refl Hs Hd e Hin). }
  destruct (decide (source e0 = Some cur)) as [Hs|Hs].
  - destruct (decide (condition e0 = Some lbl)) as [Hl|Hl].
    + rewrite next_on_condition_take by (split; auto).
      now rewrite first_tagged_take.
    + destruct (decide (condition e0 = Some "default")) as [Hd|Hd].
      * rewrite next_on_condition_take by (split; auto).
        rewrite first_tagged_skip by (intros [_ ?]; auto).
        destruct (Spec.first_tagged es cur lbl) as [e|] eqn:Hf.
        -- apply first_tagged_Some in Hf as (Hin & Hse & Hce).
           exfalso. exact (H [] e0 es eq_refl Hs Hd e Hin Hse Hce).
        -- now rewrite first_tagged_take.
      * rewrite next_on_condition_skip by (intros [_ [?|?]]; auto).
        rewrite !first_tagged_skip by (intros [_ ?]; auto).
        exact IH'.
  - rewrite next_on_condition_skip by (intros [? _]; auto).
    rewrite !first_tagged_skip by (intros [? _]; auto).
    exact IH'.
Qed.

End EdgeChoice.

(** ** One iteration of the loop, by node type *)

Section Body.

Variable re_search : regex_search.
Variable eng : WorkflowEngine.
Variable message : string.
Variable conversation_history : option history.
Variable ctx : context.

Local Abbreviation body_ := (body re_search eng message conversation_history ctx).
Local Abbreviation loop_ := (run_loop re_search eng message conversation_history ctx).

Implicit Types (st : loop_state) (cur : string) (n : node).

Lemma body_missing st cur :
  Dict.get (nodes eng) cur = None ->
  body_ st cur = Break {| current_node_id := Some cur; response := response st;
                         visited_nodes := {[cur]} ∪ visited_nodes st;
                         trace := trace st |}.
Proof. intros H. unfold body. now rewrite H. Qed.

Lemma body_message st cur n :
  Dict.get (nodes eng) cur = Some n -> node_type n = Some "message" ->
  body_ st cur = Next (after st cur (next_unconditional (edges eng) cur)
                            (Some (_process_message_node n ctx))).
Proof. intros H Ht. unfold body. rewrite H, Ht. reflexivity. Qed.

Lemma body_ai st cur n :
  Dict.get (nodes eng) cur = Some n -> node_type n = Some "ai" ->
  body_ st cur = Next (after st cur (next_unconditional (edges eng) cur)
                            (Some (_process_ai_node eng n message
                                     conversation_history ctx))).
Proof. intros H Ht. unfold body. rewrite H, Ht. reflexivity. Qed.

Lemma body_condition st cur n :
  Dict.get (nodes eng) cur = Some n -> node_type n = Some "condition" ->
  body_ st cur =
    match _evaluate_condition re_search n message ctx with
    | Ok lbl => Next (after st cur (next_on_condition (edges eng) cur lbl)
                             (response st))
    | Raise e => Fail e (after st cur (Some cur) (response st))
    end.
Proof. intros H Ht. unfold body. rewrite H, Ht. reflexivity. Qed.

Lemma body_other st cur n :
  Dict.get (nodes eng) cur = Some n ->
  default "" (node_type n) <> "message" ->
  default "" (node_type n) <> "condition" ->
  default "" (node_type n) <> "ai" ->
  body_ st cur = Next (after st cur (next_unconditional (edges eng) cur)
                            (response st)).
Proof.
  intros H H1 H2 H3. unfold body. rewrite H.
  apply String.eqb_neq in H1, H2, H3. cbv zeta. now rewrite H1, H2, H3.
Qed.

(** The loop stops without another iteration once there is no next node. *)
Lemma run_loop_halted fuel st :
  guard st = None -> loop_ fuel st = Some (st, None).
Proof. intros H. destruct fuel; cbn [run_loop]; now rewrite H. Qed.

Lemma guard_no_next st : current_node_id st = None -> guard st = None.
Proof. intros H. unfold guard. now rewrite H. Qed.

Lemma guard_visited st cur :
  current_node_id st = Some cur -> cur ∈ visited_nodes st -> guard st = None.
Proof.
  intros H Hin. unfold guard. rewrite H.
  destruct cur; [reflexivity|]. now rewrite decide_True.
Qed.

Lemma guard_Some st cur :
  guard st = Some cur ->
  current_node_id st = Some cur /\ cur <> "" /\ cur ∉ visited_nodes st.
Proof.
  unfold guard. destruct (current_node_id st) as [[|c s]|]; try discriminate.
  destruct (decide _); [discriminate|]. intros [= <-]. auto.
Qed.

End Body.

(** C1 (as amended). At a condition node whose evaluation gives the label
    [lbl], the loop sets no response and goes to the target of the first edge
    leaving the node whose tag is [lbl] or ["default"], whichever of the two
    kinds comes first in the edge list; without such an edge there is no next
    node and the loop ends after this node.  This is the edge the
    specification names (label first, ["default"] only as a fallback)
    whenever no ["default"] edge of the node is listed before an edge tagged
    with the label. *)
Theorem condition_node_takes_first_eligible_edge :
  forall (re_search : regex_search) (eng : WorkflowEngine) (message : string)
         (conversation_history : option history) (ctx : context)
         (st : loop_state) (cur : string) (n : node) (lbl : string),
    Dict.get (nodes eng) cur = Some n ->
    node_type n = Some "condition" ->
    _evaluate_condition re_search n message ctx = Ok lbl ->
    exists st',
      body re_search eng message conversation_history ctx st cur = Next st'
      /\ response st' = response st
      /\ (forall pre e post,
             edges eng = (pre ++ e :: post)%list ->
             eligible cur lbl e ->
             (forall e', e' ∈ pre -> ~ eligible cur lbl e') ->
             current_node_id st' = target e)
      /\ ((forall e, e ∈ edges eng -> ~ eligible cur lbl e) ->
          current_node_id st' = None
          /\ forall fuel,
               run_loop re_search eng message conversation_history ctx fuel st'
               = Some (st', None))
      /\ ((forall pre d post,
              edges eng = (pre ++ d :: post)%list ->
              source d = Some cur -> condition d = Some "default" ->
              forall e, e ∈ post -> source e = Some cur ->
                        condition e <> Some lbl) ->
          current_node_id st' = Spec.select_edge (edges eng) cur lbl ≫= target).
Proof.
  intros re_search eng message hist ctx st cur n lbl Hget Hty Hev.
  eexists. split.
  { rewrite (body_condition _ _ _ _ _ _ _ _ Hget Hty), Hev. reflexivity. }
  cbn [after response current_node_id]. repeat split.
  - intros pre e post -> He Hpre. now apply next_on_condition_first.
  - now apply next_on_condition_none.
  - intros fuel. apply run_loop_halted, guard_no_next.
    cbn [current_node_id]. now apply next_on_condition_none.
  - apply next_on_condition_agrees.
Qed.

Lemma condition_node_takes_first_eligible_edge_witness :
  exists st',
    body Sample.re_search Sample.default_first_engine "Hello there!" None []
         (start_state Sample.default_first_engine) "2" = Next st'
    /\ current_node_id st' = Some "4".
Proof.
  destruct (condition_node_takes_first_eligible_edge
              Sample.re_search Sample.default_first_engine "Hello there!" None
              [] (start_state Sample.default_first_engine) "2"
              (Sample.mk_node "2" "condition"
                 (Sample.keyword_data ["hello"; "hi"; "hey"]))
              "true" eq_refl eq_refl eq_refl)
    as (st' & Hbody & _ & Hfirst & _).
  exists st'. split; [exact Hbody|].
  apply (Hfirst [Sample.mk_edge "1" "2" None]
                (Sample.mk_edge "2" "4" (Some "default"))
                [Sample.mk_edge "2" "3" (Some "true")] eq_refl).
  - split; [reflexivity | now right].
  - intros e' Hin [Hs _]. apply list_elem_of_singleton in Hin. subst e'.
    discriminate Hs.
Defined.

(** C1, the claim as stated fails: with a ["default"] edge listed before the
    edge tagged ["true"], a message that evaluates to ["true"] is routed
    along the ["default"] edge, not along the label-matching one. *)
Lemma default_edge_listed_first_is_taken :
  _evaluate_condition Sample.re_search
    (Sample.mk_node "2" "condition" (Sample.keyword_data ["hello"; "hi"; "hey"]))
    "Hello there!" [("user_message", PStr "Hello there!")] = Ok "true"
  /\ next_on_condition Sample.default_first_edges "2" "true" = Some "4"
  /\ Spec.select_edge Sample.default_first_edges "2" "true" ≫= target = Some "3"
  /\ process_message Sample.re_search Sample.default_first_engine
       "Hello there!" None None
     = Some (Ok ("I didn't understand that. Can you rephrase?",
                 [("user_message", PStr "Hello there!")])).
Proof. repeat split. Qed.

(** ** A graph without nodes *)

(** C2 (as amended). For every graph with no nodes, every message and every
    context, the call returns the fixed no-workflow response and the context
    it was given, with nothing inserted: the key of the inbound message is
    not added on this path (no context, or an empty one, comes back as the
    empty dictionary). *)
Theorem empty_graph_returns_context_untouched :
  forall (re_search : regex_search) (workflow_edges : list edge)
         (llm : option port) (start : option string) (message : string)
         (conversation_history : option history) (ctx : option context),
    process_message re_search (__init__ [] workflow_edges llm) message
                    conversation_history ctx
    = Some (Ok (no_workflow, default [] ctx))
    /\ forall fuel,
         process_message_fuel re_search
           {| nodes := []; edges := workflow_edges; llm_integration := llm;
              start_node_id := start |}
           fuel message conversation_history ctx
         = Some (Ok (no_workflow, default [] ctx)).
Proof. intros. split; [reflexivity | intros fuel; reflexivity]. Qed.

(** C2, the claim as stated fails: the context returned for a graph without
    nodes does not hold the inbound message. *)
Lemma empty_graph_context_lacks_message :
  exists ctx',
    process_message Sample.re_search (__init__ [] [] None) "hi" None
                    (Some [("lang", PStr "en")])
    = Some (Ok (no_workflow, ctx'))
    /\ ctx' = [("lang", PStr "en")]
    /\ Dict.get ctx' "user_message" = None.
Proof. eexists. repeat split. Qed.

(** ** The condition evaluator *)

Section Conditions.

Variable re_search : regex_search.

Implicit Types (n : node) (message : string) (ctx : context).

Lemma any_keyword_true kws message :
  any_keyword kws message = true <->
  exists kw, kw ∈ kws /\
             PyStr.contains (PyStr.lower kw) (PyStr.lower message) = true.
Proof.
  induction kws as [|k kws IH]; cbn [any_keyword].
  - split; [discriminate|]. intros (kw & Hin & _). inversion Hin.
  - destruct (PyStr.contains (PyStr.lower k) (PyStr.lower message)) eqn:Hk.
    + split; [|reflexivity]. intros _. exists k. split; [now left | exact Hk].
    + rewrite IH. split.
      * intros (kw & Hin & H). exists kw. split; [now right | exact H].
      * intros (kw & Hin & H). apply elem_of_cons in Hin as [->|Hin].
        -- congruence.
        -- exists kw. auto.
Qed.

Lemma bool_label_true b : bool_label b = "true" <-> b = true.
Proof. destruct b; cbn; split; congruence. Qed.

Lemma bool_label_not_default b : bool_label b <> "default".
Proof. destruct b; discriminate. Qed.

Lemma evaluate_keyword n message ctx :
  default "keyword" (conditionType (data n)) = "keyword" ->
  _evaluate_condition re_search n message ctx
  = Ok (bool_label (any_keyword (default [] (keywords (data n))) message)).
Proof. intros H. unfold _evaluate_condition. cbv zeta. now rewrite H. Qed.

Lemma evaluate_regex n message ctx :
  conditionType (data n) = Some "regex" ->
  _evaluate_condition re_search n message ctx
  = match default "" (pattern (data n)) with
    | EmptyString => Ok "false"
    | String _ _ as p =>
        match re_search p message with
        | Ok m => Ok (bool_label m)
        | Raise e => Raise e
        end
    end.
Proof.
  intros H. unfold _evaluate_condition. cbv zeta. rewrite H. cbn.
  destruct (pattern (data n)) as [[|c p]|]; reflexivity.
Qed.


Lemma evaluate_unknown n message ctx t :
  conditionType (data n) = Some t ->
  t <> "keyword" -> t <> "regex" -> t <> "intent" -> t <> "variable" ->
  _evaluate_condition re_search n message ctx = Ok "default".
Proof.
  intros H H1 H2 H3 H4. unfold _evaluate_condition. cbv zeta. rewrite H.
  cbn [default from_option id].
  apply String.eqb_neq in H1, H2, H3, H4. now rewrite H1, H2, H3, H4.
Qed.




End Conditions.

(** C9. A condition node whose data has no [conditionType] is evaluated by
    the keyword strategy: the outcome is ["true"] when one of its keywords
    occurs in the message (case-insensitively) and ["false"] otherwise, the
    same as for a node that names ["keyword"], and never ["default"]; a
    [conditionType] that is present and is none of the four known ones
    gives ["default"]. *)
Theorem missing_condition_type_is_keyword :
  forall (re_search : regex_search) (n : node) (message : string) (ctx : context),
    (conditionType (data n) = None ->
       _evaluate_condition re_search n message ctx
       = Ok (bool_label (any_keyword (default [] (keywords (data n))) message))
       /\ (_evaluate_condition re_search n message ctx = Ok "true" <->
           exists kw, kw ∈ default [] (keywords (data n)) /\
                      PyStr.contains (PyStr.lower kw) (PyStr.lower message) = true)
       /\ _evaluate_condition re_search n message ctx <> Ok "default"
       /\ forall n', conditionType (data n') = Some "keyword" ->
                     keywords (data n') = keywords (data n) ->
                     _evaluate_condition re_search n' message ctx
                     = _evaluate_condition re_search n message ctx)
    /\ (forall t, conditionType (data n) = Some t ->
                  t <> "keyword" -> t <> "regex" -> t <> "intent" ->
                  t <> "variable" ->
                  _evaluate_condition re_search n message ctx = Ok "default").
Proof.
  intros re_search n message ctx. split.
  - intros Hnone.
    assert (Hk : _evaluate_condition re_search n message ctx
                 = Ok (bool_label (any_keyword (default [] (keywords (data n)))
                                               message))).
    { apply evaluate_keyword. now rewrite Hnone. }
    rewrite Hk. repeat split.
    + intros [= H]. now apply any_keyword_true, bool_label_true.
    + intros H. f_equal. now apply bool_label_true, any_keyword_true.
    + intros [= H]. now apply bool_label_not_default in H.
    + intros n' Hty Hkw. rewrite evaluate_keyword by now rewrite Hty.
      now rewrite Hkw.
  - intros t. apply evaluate_unknown.
Qed.

Lemma missing_condition_type_is_keyword_witness :
  _evaluate_condition Sample.re_search
    {| node_id := "c"; node_type := Some "condition";
       data := {| label := None; conditionType := None;
                  keywords := Some ["hello"; "hi"]; pattern := None;
                  intents := None; variable := None; value := None;
                  systemPrompt := None; model := None; temperature := None |} |}
    "Hello there" [] = Ok "true"
  /\ _evaluate_condition Sample.re_search
       (Sample.mk_node "c" "condition"
          {| label := None; conditionType := Some "sentiment";
             keywords := Some ["hello"; "hi"]; pattern := None;
             intents := None; variable := None; value := None;
             systemPrompt := None; model := None; temperature := None |})
       "Hello there" [] = Ok "default".
Proof.
  split.
  - match goal with |- _evaluate_condition ?r ?n ?m ?c = _ =>
      destruct (missing_condition_type_is_keyword r n m c) as [H _];
      destruct (H eq_refl) as (-> & _)
    end.
    reflexivity.
  - match goal with |- _evaluate_condition ?r ?n ?m ?c = _ =>
      destruct (missing_condition_type_is_keyword r n m c) as [_ H]
    end.
    apply (H "sentiment"); [reflexivity | discriminate..].
Defined.




(** ** The traversal loop *)

Section Run.

Variable re_search : regex_search.
Variable eng : WorkflowEngine.
Variable message : string.
Variable conversation_history : option history.
Variable ctx : context.

Local Abbreviation body_ := (body re_search eng message conversation_history ctx).
Local Abbreviation loop_ := (run_loop re_search eng message conversation_history ctx).
Local Abbreviation output_ := (node_output eng message conversation_history ctx).
Local Abbreviation last_ := (last_output eng message conversation_history ctx).
Local Abbreviation traced_ := (well_traced eng message conversation_history ctx).

Implicit Types (st : loop_state) (cur : string) (n : node).

Lemma get_Some_key {V} (d : Dict.t V) k v :
  Dict.get d k = Some v -> k ∈ Dict.keys d.
Proof.
  induction d as [|[k' v'] d IH]; [discriminate|].
  cbn [Dict.get Dict.keys map fst].
  destruct (String.eqb_spec k' k) as [->|Hne].
  - intros _. now left.
  - intros H. right. now apply IH.
Qed.

Lemma get_Some_node_id cur n :
  Dict.get (nodes eng) cur = Some n -> cur ∈ node_ids eng.
Proof.
  intros H. unfold node_ids. apply elem_of_list_to_set.
  exact (get_Some_key _ _ _ H).
Qed.

Lemma size_list_to_set_le (l : list string) :
  size (list_to_set l : gset string) <= length l.
Proof.
  induction l as [|x l IH]; cbn [list_to_set length].
  - now rewrite size_empty.
  - rewrite size_union_alt, size_singleton.
    assert (size ((list_to_set l : gset string) ∖ {[x]})
            <= size (list_to_set l : gset string))
      by (apply subseteq_size; set_solver).
    lia.
Qed.

Lemma node_ids_size : size (node_ids eng) <= length (nodes eng).
Proof.
  unfold node_ids, Dict.keys.
  etransitivity; [apply size_list_to_set_le|]. now rewrite length_map.
Qed.

Lemma last_output_snoc tr cur :
  last_ (tr ++ [cur])%list
  = match output_ cur with Some o => Some o | None => last_ tr end.
Proof.
  unfold last_output. rewrite omap_app.
  assert (Hone : omap output_ [cur]
                 = match output_ cur with Some o => [o] | None => [] end)
    by (cbn; now destruct (output_ cur)).
  rewrite Hone. destruct (output_ cur) as [o|].
  - apply last_snoc.
  - now rewrite app_nil_r.
Qed.

(** The trace of a well-traced state is no longer than the graph. *)
Lemma well_traced_length st :
  traced_ st -> length (trace st) <= length (nodes eng).
Proof.
  intros (Hnd & Hin & _).
  rewrite <- (size_list_to_set (C := gset string) _ Hnd).
  etransitivity; [|apply node_ids_size].
  apply subseteq_size. intros x Hx. apply elem_of_list_to_set in Hx.
  now apply Hin.
Qed.

Lemma well_traced_start : traced_ (start_state eng).
Proof.
  repeat split; cbn.
  - constructor.
  - inversion H.
  - inversion H.
Qed.

(** One iteration keeps the state well traced, and an iteration that goes on
    uses up one of the remaining nodes. *)
Lemma body_well_traced st cur :
  guard st = Some cur -> traced_ st ->
  match body_ st cur with
  | Next st' => traced_ st' /\ remaining eng st' < remaining eng st
  | Break st' => traced_ st'
  | Fail _ st' => traced_ st'
  end.
Proof.
  intros Hg (Hnd & Hin & Hresp).
  apply guard_Some in Hg as (_ & _ & Hfresh).
  assert (Hbreak : forall r,
             traced_ {| current_node_id := r; response := response st;
                        visited_nodes := {[cur]} ∪ visited_nodes st;
                        trace := trace st |}).
  { intros r. repeat split; cbn [trace visited_nodes response]; auto.
    - apply elem_of_union_r. now apply Hin.
    - now apply Hin. }
  unfold body. destruct (Dict.get (nodes eng) cur) as [n|] eqn:Hget;
    [|apply Hbreak].
  pose proof (get_Some_node_id _ _ Hget) as Hid.
  assert (Hafter : forall next resp,
             resp = match output_ cur with
                    | Some o => Some o
                    | None => response st
                    end ->
             traced_ (after st cur next resp)
             /\ remaining eng (after st cur next resp) < remaining eng st).
  { intros next resp Hr. split; [repeat split|]; cbn [after trace visited_nodes response].
    - apply NoDup_app. repeat split; [exact Hnd | | apply NoDup_singleton].
      intros x Hx Hx'. apply list_elem_of_singleton in Hx'. subst x.
      apply Hfresh. now apply Hin.
    - apply elem_of_app in H as [H|H].
      + apply elem_of_union_r. now apply Hin.
      + apply list_elem_of_singleton in H. subst x. now apply elem_of_union_l, elem_of_singleton.
    - apply elem_of_app in H as [H|H]; [now apply Hin|].
      apply list_elem_of_singleton in H. now subst x.
    - rewrite last_output_snoc, Hr, Hresp. reflexivity.
    - unfold remaining. cbn [visited_nodes]. apply subset_size.
      set_solver. }
  cbv zeta. unfold node_output in Hafter. rewrite Hget in Hafter.
  cbv zeta in Hafter.
  destruct (String.eqb_spec (default "" (node_type n)) "message") as [Hm|Hm].
  { apply Hafter. reflexivity. }
  destruct (String.eqb_spec (default "" (node_type n)) "condition") as [Hc|Hc].
  { rewrite Hc in Hafter. cbn in Hafter.
    destruct (_evaluate_condition re_search n message ctx).
    - apply Hafter. reflexivity.
    - apply (Hafter (Some cur) (response st) eq_refl). }
  destruct (String.eqb_spec (default "" (node_type n)) "ai") as [Ha|Ha].
  { apply Hafter. reflexivity. }
  apply Hafter. reflexivity.
Qed.

(** The loop ends within one iteration more than there are unvisited nodes,
    in a well-traced state. *)
Lemma run_loop_terminates fuel st :
  remaining eng st < fuel -> traced_ st ->
  exists st' e, loop_ fuel st = Some (st', e) /\ traced_ st'.
Proof.
  revert st. induction fuel as [|fuel IH]; intros st Hfuel Htr; [lia|].
  cbn [run_loop]. destruct (guard st) as [cur|] eqn:Hg.
  - pose proof (body_well_traced st cur Hg Htr) as Hb.
    destruct (body_ st cur) as [st'|st'|e st'].
    + destruct Hb as [Htr' Hlt]. apply IH; [lia | exact Htr'].
    + eauto.
    + eauto.
  - eauto.
Qed.

(** More fuel does not change a result. *)
Lemma run_loop_more_fuel fuel k st r :
  loop_ fuel st = Some r -> loop_ (fuel + k) st = Some r.
Proof.
  revert st. induction fuel as [|fuel IH]; intros st; cbn [run_loop Nat.add].
  - destruct (guard st) eqn:Hg; [discriminate|]. intros <-.
    now apply run_loop_halted.
  - destruct (guard st) as [cur|]; [|auto].
    destruct (body_ st cur); auto.
Qed.



End Run.

(** ** One call of [process_message] *)

Section Call.

Variable re_search : regex_search.
Variable eng : WorkflowEngine.
Variable message : string.
Variable conversation_history : option history.

Implicit Types (ctx : option context) (st : loop_state).

Lemma remaining_start : remaining eng (start_state eng) <= length (nodes eng).
Proof.
  unfold remaining. etransitivity; [|apply node_ids_size].
  apply subseteq_size. set_solver.
Qed.

Lemma traverse_terminates fuel ctx :
  length (nodes eng) < fuel ->
  exists st e,
    traverse re_search eng fuel message conversation_history ctx = Some (st, e)
    /\ well_traced eng message conversation_history (with_message ctx message) st.
Proof.
  intros Hfuel. unfold traverse. apply run_loop_terminates.
  - pose proof remaining_start. lia.
  - apply well_traced_start.
Qed.

Lemma guard_start cur :
  start_node_id eng = Some cur -> cur <> "" ->
  guard (start_state eng) = Some cur.
Proof.
  intros Hs Hne. unfold guard, start_state. cbn [current_node_id visited_nodes].
  rewrite Hs. destruct cur; [congruence|].
  rewrite decide_False; [reflexivity | set_solver].
Qed.

(** The result of a call, from the state its loop ends in. *)
Lemma process_message_configured ctx st e :
  not_configured eng = false ->
  traverse re_search eng (S (length (nodes eng))) message conversation_history ctx
  = Some (st, e) ->
  process_message re_search eng message conversation_history ctx
  = Some match e with
         | Some x => Raise x
         | None => Ok (default default_response (response st),
                       with_message ctx message)
         end.
Proof.
  intros Hc Ht. unfold process_message, process_message_fuel.
  rewrite Hc, Ht. now destruct e.
Qed.

Lemma last_output_none (c : context) tr :
  (forall x, x ∈ tr -> node_output eng message conversation_history c x = None) ->
  last_output eng message conversation_history c tr = None.
Proof.
  intros H. unfold last_output.
  assert (E : omap (node_output eng message conversation_history c) tr = []).
  { induction tr as [|x tr IH]; [reflexivity|]. cbn.
    rewrite (H x) by now left. apply IH. intros y Hy. apply H. now right. }
  now rewrite E.
Qed.

End Call.

(** C5. For every graph, cyclic or not, one call ends: the loop started
    with one iteration more than the graph has nodes finishes, and more fuel
    gives the same end state.  The loop dispatches on no node id twice, only
    on ids of the graph, so on at most as many nodes as the graph has; a
    current id that was visited before ends the loop at once. *)
Theorem traversal_ends_visiting_each_node_once :
  forall (re_search : regex_search) (eng : WorkflowEngine) (message : string)
         (conversation_history : option history) (ctx : option context),
    exists st e,
      traverse re_search eng (S (length (nodes eng))) message
               conversation_history ctx = Some (st, e)
      /\ (forall k, traverse re_search eng (S (length (nodes eng)) + k) message
                             conversation_history ctx = Some (st, e))
      /\ process_message re_search eng message conversation_history ctx <> None
      /\ NoDup (trace st)
      /\ (forall x, x ∈ trace st -> x ∈ node_ids eng)
      /\ length (trace st) <= length (nodes eng)
      /\ (forall fuel c st0 cur,
             current_node_id st0 = Some cur -> cur ∈ visited_nodes st0 ->
             run_loop re_search eng message conversation_history c fuel st0
             = Some (st0, None)).
Proof.
  intros re_search eng message hist ctx.
  destruct (traverse_terminates re_search eng message hist
              (S (length (nodes eng))) ctx) as (st & e & Ht & Htr); [lia|].
  exists st, e. split; [exact Ht|]. split; [|split; [|split; [|split; [|split]]]].
  - intros k. unfold traverse in *. now apply run_loop_more_fuel.
  - unfold process_message, process_message_fuel.
    destruct (not_configured eng); [discriminate|].
    rewrite Ht. now destruct e.
  - apply Htr.
  - intros x Hx. destruct Htr as (_ & Hin & _). now apply Hin.
  - exact (well_traced_length _ _ _ _ _ Htr).
  - intros fuel c st0 cur Hcur Hin.
    apply run_loop_halted. exact (guard_visited _ _ Hcur Hin).
Qed.

Lemma traversal_ends_visiting_each_node_once_witness :
  exists st,
    traverse Sample.re_search Sample.cycle_engine 3 "x" None None
    = Some (st, None)
    /\ trace st = ["A"; "B"]
    /\ current_node_id st = Some "A".
Proof.
  destruct (traversal_ends_visiting_each_node_once
              Sample.re_search Sample.cycle_engine "x" None None)
    as (st & e & Ht & _).
  vm_compute in Ht. injection Ht as <- <-.
  eexists. split; [vm_compute; reflexivity|]. split; reflexivity.
Defined.



(** Every iteration on a node of the graph appends its id to the trace, and
    sets the pending response to the node's text when it is a message or a
    generation node, whatever response was pending; otherwise it leaves the
    pending response as it is. *)
Lemma body_dispatch (re_search : regex_search) (eng : WorkflowEngine)
    (message : string) (hist : option history) (ctx : context)
    (st0 : loop_state) (x : string) (n : node) :
  Dict.get (nodes eng) x = Some n ->
  let resp' := match node_output eng message hist ctx x with
               | Some o => Some o
               | None => response st0
               end in
  (exists next,
      body re_search eng message hist ctx st0 x = Next (after st0 x next resp'))
  \/ (exists e,
         body re_search eng message hist ctx st0 x
         = Fail e (after st0 x (Some x) resp')).
Proof.
  intros Hget. unfold body, node_output. rewrite Hget. cbv zeta.
  destruct (String.eqb_spec (default "" (node_type n)) "message") as [Hm|Hm];
    [left; eauto|].
  destruct (String.eqb_spec (default "" (node_type n)) "condition") as [Hc|Hc].
  - rewrite Hc. cbn [String.eqb Ascii.eqb Bool.eqb].
    destruct (_evaluate_condition re_search n message ctx); [left | right]; eauto.
  - destruct (String.eqb_spec (default "" (node_type n)) "ai"); left; eauto.
Qed.

(** C7. When the graph is configured, the response of a call is the text
    of the last message or generation node the loop dispatched on; when there
    was none, it is the fixed default text.  Each iteration on a message or
    generation node replaces the pending response by that node's text,
    whatever was pending, and every iteration on a node of the graph is
    recorded in the trace; condition nodes and start nodes leave the pending
    response as it is. *)
Theorem response_is_last_node_text :
  forall (re_search : regex_search) (eng : WorkflowEngine) (message : string)
         (conversation_history : option history) (ctx : option context)
         (resp : string) (ctx' : context),
    not_configured eng = false ->
    process_message re_search eng message conversation_history ctx
    = Some (Ok (resp, ctx')) ->
    exists st,
      traverse re_search eng (S (length (nodes eng))) message
               conversation_history ctx = Some (st, None)
      /\ ctx' = with_message ctx message
      /\ resp = default default_response
                        (last_output eng message conversation_history ctx'
                                     (trace st))
      /\ ((forall x, x ∈ trace st ->
                     node_output eng message conversation_history ctx' x = None) ->
          resp = default_response)
      /\ (forall tr x o,
             node_output eng message conversation_history ctx' x = Some o ->
             last_output eng message conversation_history ctx' (tr ++ [x])%list
             = Some o)
      /\ (forall x n,
             Dict.get (nodes eng) x = Some n ->
             node_type n = Some "condition" \/ node_type n = Some "start" ->
             node_output eng message conversation_history ctx' x = None
             /\ forall st0 st1,
                  body re_search eng message conversation_history ctx' st0 x
                  = Next st1 ->
                  response st1 = response st0)
      /\ (forall st0 x n,
             Dict.get (nodes eng) x = Some n ->
             node_type n = Some "message" ->
             body re_search eng message conversation_history ctx' st0 x
             = Next (after st0 x (next_unconditional (edges eng) x)
                           (Some (_process_message_node n ctx'))))
      /\ (forall st0 x n,
             Dict.get (nodes eng) x = Some n ->
             node_type n = Some "ai" ->
             body re_search eng message conversation_history ctx' st0 x
             = Next (after st0 x (next_unconditional (edges eng) x)
                           (Some (_process_ai_node eng n message
                                    conversation_history ctx'))))
      /\ (forall st0 x n,
             Dict.get (nodes eng) x = Some n ->
             let resp' :=
               match node_output eng message conversation_history ctx' x with
               | Some o => Some o
               | None => response st0
               end in
             (exists next,
                 body re_search eng message conversation_history ctx' st0 x
                 = Next (after st0 x next resp'))
             \/ (exists e,
                    body re_search eng message conversation_history ctx' st0 x
                    = Fail e (after st0 x (Some x) resp'))).
Proof.
  intros re_search eng message hist ctx resp ctx' Hnc Hpm.
  destruct (traverse_terminates re_search eng message hist
              (S (length (nodes eng))) ctx) as (st & e & Ht & Htr); [lia|].
  rewrite (process_message_configured _ _ _ _ _ _ _ Hnc Ht) in Hpm.
  destruct e as [x|]; [discriminate|]. injection Hpm as <- <-.
  destruct Htr as (_ & _ & Hresp).
  exists st. split; [exact Ht|]. split; [reflexivity|].
  split; [now rewrite Hresp|].
  split; [|split; [|split; [|split; [|split]]]].
  - intros Hnone. rewrite Hresp, last_output_none by exact Hnone. reflexivity.
  - intros tr x o Ho. now rewrite last_output_snoc, Ho.
  - intros x n Hget Hty. split.
    + unfold node_output. rewrite Hget. now destruct Hty as [-> | ->].
    + intros st0 st1. destruct Hty as [Hty|Hty].
      * rewrite (body_condition _ _ _ _ _ _ _ _ Hget Hty).
        destruct (_evaluate_condition _ _ _ _); [|discriminate].
        now intros [= <-].
      * rewrite (body_other _ _ _ _ _ _ _ _ Hget)
          by (rewrite Hty; discriminate).
        now intros [= <-].
  - intros st0 x n. apply body_message.
  - intros st0 x n. apply body_ai.
  - intros st0 x n. apply body_dispatch.
Qed.

Lemma response_is_last_node_text_witness :
  exists st,
    traverse Sample.re_search Sample.cycle_engine 3 "x" None None
    = Some (st, None)
    /\ trace st = ["A"; "B"]
    /\ node_output Sample.cycle_engine "x" None [("user_message", PStr "x")] "A"
       = Some "a"
    /\ "b" = default default_response
               (last_output Sample.cycle_engine "x" None
                            [("user_message", PStr "x")] (trace st)).
Proof.
  destruct (response_is_last_node_text
              Sample.re_search Sample.cycle_engine "x" None None
              "b" [("user_message", PStr "x")] eq_refl eq_refl)
    as (st & Ht & _ & Hresp & _).
  exists st. split; [exact Ht|]. split; [|split; [reflexivity | exact Hresp]].
  vm_compute in Ht. now injection Ht as <-.
Defined.

Example failing_port_run :
  exists st,
    traverse Sample.re_search Sample.failing_engine 3 "x" None None
    = Some (st, None)
    /\ trace st = ["g"; "end"]
    /\ response st = Some ai_fallback.
Proof. eexists. split; [vm_compute; reflexivity|]. split; reflexivity. Qed.

(** ** The regex strategy *)

Section Reached.

Variable re_search : regex_search.
Variable eng : WorkflowEngine.
Variable message : string.
Variable conversation_history : option history.

Local Abbreviation loop_ := (run_loop re_search eng message conversation_history).
Local Abbreviation reaches_ := (reaches re_search eng message conversation_history).

(** What the loop gives from a state it passes through, it gives from the
    state it started in. *)
Lemma run_loop_from_reached (ctx : context) st0 st :
  reaches_ ctx st0 st ->
  forall fuel r, loop_ ctx fuel st = Some r ->
                 exists fuel0, loop_ ctx fuel0 st0 = Some r.
Proof.
  induction 1 as [st|st cur st1 st2 Hg Hb _ IH]; intros fuel r Hr; [eauto|].
  destruct (IH fuel r Hr) as (fuel1 & H1).
  exists (S fuel1). cbn [run_loop]. now rewrite Hg, Hb.
Qed.

(** An exception raised in a state the call passes through leaves the call. *)
Lemma process_message_raises_from_reached (c : option context) st fuel st' e :
  not_configured eng = false ->
  reaches_ (with_message c message) (start_state eng) st ->
  loop_ (with_message c message) fuel st = Some (st', Some e) ->
  process_message re_search eng message conversation_history c = Some (Raise e).
Proof.
  intros Hnc Hreach Hrun.
  destruct (run_loop_from_reached _ _ _ Hreach _ _ Hrun) as (fuel0 & H0).
  destruct (traverse_terminates re_search eng message conversation_history
              (S (length (nodes eng))) c) as (st2 & e2 & Ht & _); [lia|].
  rewrite (process_message_configured _ _ _ _ _ _ _ Hnc Ht).
  unfold traverse in Ht.
  apply (run_loop_more_fuel _ _ _ _ _ _ fuel0) in Ht.
  apply (run_loop_more_fuel _ _ _ _ _ _ (S (length (nodes eng)))) in H0.
  rewrite Nat.add_comm, H0 in Ht. now injection Ht as <- <-.
Qed.

End Reached.

(** C4 (as amended). For a node of the regex strategy: an unset or empty
    pattern gives ["false"] without a search (although the empty pattern
    matches every message); for a non-empty pattern the outcome is ["true"]
    when the search finds a match and ["false"] when it finds none; a pattern
    that does not compile is not turned into ["false"] and was not rejected
    when the graph was loaded: the error of the search leaves the evaluator,
    and leaves [process_message] whenever the loop comes to the node, be it
    the start node or a node reached after any number of iterations. *)
Theorem regex_condition_outcome :
  forall (re_search : regex_search) (n : node) (message : string) (ctx : context),
    conditionType (data n) = Some "regex" ->
    (default "" (pattern (data n)) = "" ->
       _evaluate_condition re_search n message ctx = Ok "false")
    /\ (forall p,
          pattern (data n) = Some p -> p <> "" ->
          _evaluate_condition re_search n message ctx
          = match re_search p message with
            | Ok true => Ok "true"
            | Ok false => Ok "false"
            | Raise e => Raise e
            end)
    /\ (forall eng conversation_history c cur p e,
          not_configured eng = false ->
          start_node_id eng = Some cur ->
          Dict.get (nodes eng) cur = Some n ->
          node_type n = Some "condition" ->
          pattern (data n) = Some p -> p <> "" ->
          re_search p message = Raise e ->
          process_message re_search eng message conversation_history c
          = Some (Raise e))
    /\ (forall eng conversation_history c st cur p e,
          not_configured eng = false ->
          reaches re_search eng message conversation_history
                  (with_message c message) (start_state eng) st ->
          guard st = Some cur ->
          Dict.get (nodes eng) cur = Some n ->
          node_type n = Some "condition" ->
          pattern (data n) = Some p -> p <> "" ->
          re_search p message = Raise e ->
          process_message re_search eng message conversation_history c
          = Some (Raise e)).
Proof.
  intros re_search n message ctx Hty.
  assert (Hp : forall c p,
             pattern (data n) = Some p -> p <> "" ->
             _evaluate_condition re_search n message c
             = match re_search p message with
               | Ok true => Ok "true"
               | Ok false => Ok "false"
               | Raise e => Raise e
               end).
  { intros c p Hpat Hne. rewrite (evaluate_regex _ _ _ _ Hty), Hpat.
    cbn [default from_option id]. destruct p; [congruence|].
    destruct (re_search _ message) as [[|]|]; reflexivity. }
  assert (Hreached : forall eng hist c st cur p e,
             not_configured eng = false ->
             reaches re_search eng message hist (with_message c message)
                     (start_state eng) st ->
             guard st = Some cur ->
             Dict.get (nodes eng) cur = Some n ->
             node_type n = Some "condition" ->
             pattern (data n) = Some p -> p <> "" ->
             re_search p message = Raise e ->
             process_message re_search eng message hist c = Some (Raise e)).
  { intros eng hist c st cur p e Hnc Hreach Hg Hget Hnty Hpat Hne Hre.
    apply (process_message_raises_from_reached _ _ _ _ _ st 1
             (after st cur (Some cur) (response st)) e Hnc Hreach).
    cbn [run_loop]. rewrite Hg, (body_condition _ _ _ _ _ _ _ _ Hget Hnty).
    now rewrite (Hp _ p Hpat Hne), Hre. }
  split; [|split; [apply Hp|split; [|exact Hreached]]].
  - intros He. now rewrite (evaluate_regex _ _ _ _ Hty), He.
  - intros eng hist c cur p e Hnc Hstart Hget Hnty Hpat Hne Hre.
    apply (Hreached eng hist c (start_state eng) cur p e Hnc); try assumption.
    + constructor.
    + apply (guard_start _ _ Hstart).
      intros ->. unfold not_configured in Hnc. rewrite Hstart in Hnc.
      cbn in Hnc. now rewrite orb_true_r in Hnc.
Qed.

Lemma regex_condition_outcome_witness :
  _evaluate_condition Sample.re_search
    (Sample.mk_node "c" "condition" (Sample.regex_data "hel"))
    "Hello" [] = Ok "true"
  /\ process_message Sample.re_search
       (__init__ [Sample.mk_node "c" "condition" (Sample.regex_data "(")] [] None)
       "Hello" None None
     = Some (Raise (re_error "("))
  /\ process_message Sample.re_search SampleFlow.regex_after_start
       "Hello" None None
     = Some (Raise (re_error "(")).
Proof.
  split; [|split].
  - destruct (regex_condition_outcome Sample.re_search
                (Sample.mk_node "c" "condition" (Sample.regex_data "hel"))
                "Hello" [] eq_refl) as (_ & H & _).
    rewrite (H "hel" eq_refl); [reflexivity | discriminate].
  - destruct (regex_condition_outcome Sample.re_search
                (Sample.mk_node "c" "condition" (Sample.regex_data "("))
                "Hello" [] eq_refl) as (_ & _ & H & _).
    apply (H _ None None "c" "(" (re_error "("));
      [reflexivity | reflexivity | reflexivity | reflexivity | reflexivity
      | discriminate | reflexivity ].
  - destruct (regex_condition_outcome Sample.re_search
                (Sample.mk_node "c" "condition" (Sample.regex_data "("))
                "Hello" [] eq_refl) as (_ & _ & _ & H).
    apply (H SampleFlow.regex_after_start None None
             (after (start_state SampleFlow.regex_after_start) "s" (Some "c") None)
             "c" "(" (re_error "("));
      [reflexivity | | reflexivity | reflexivity | reflexivity | reflexivity
      | discriminate | reflexivity ].
    eapply reaches_next with (cur := "s"); [reflexivity | reflexivity |].
    apply reaches_here.
Defined.

(** C4, the claim as stated fails: the evaluation of a pattern that does not
    compile raises, out of the evaluator and out of the call; and the empty
    pattern, which matches every message, gives ["false"]. *)
Lemma malformed_pattern_raises :
  _evaluate_condition Sample.re_search
    (Sample.mk_node "c" "condition" (Sample.regex_data "(")) "Hello" []
  = Raise (re_error "(")
  /\ process_message Sample.re_search
       (__init__ [Sample.mk_node "c" "condition" (Sample.regex_data "(")] [] None)
       "Hello" None None
     = Some (Raise (re_error "("))
  /\ Sample.re_search "" "Hello" = Ok true
  /\ _evaluate_condition Sample.re_search
       (Sample.mk_node "c" "condition" (Sample.regex_data "")) "Hello" []
     = Ok "false".
Proof. repeat split. Qed.

(** ** The start node *)

Section Start.

Implicit Types (ns : Dict.t node) (k : string).

Lemma resolve_start_without_start_node ns :
  find_start ns = None -> resolve_start ns = head (Dict.keys ns).
Proof.
  intros H. unfold resolve_start. rewrite H. cbn [truthy negb andb].
  destruct ns as [|[k n] ns]; reflexivity.
Qed.

Lemma resolve_start_with_start_node ns k :
  find_start ns = Some k -> k <> "" -> resolve_start ns = Some k.
Proof.
  intros H Hne. unfold resolve_start. rewrite H.
  destruct k; [congruence | reflexivity].
Qed.

(** [find_start] returns the key of the first node of type ["start"]. *)
Lemma find_start_first (pre post : Dict.t node) k n :
  node_type n = Some "start" ->
  (forall k' n', (k', n') ∈ pre -> node_type n' <> Some "start") ->
  find_start (pre ++ (k, n) :: post)%list = Some k.
Proof.
  intros Hn. induction pre as [|[k0 n0] pre IH]; intros Hpre; cbn.
  - now rewrite decide_True.
  - rewrite decide_False by (apply (Hpre k0 n0); now left).
    apply IH. intros k' n' Hin. apply (Hpre k' n'). now right.
Qed.

Lemma find_start_none ns :
  (forall k n, (k, n) ∈ ns -> node_type n <> Some "start") ->
  find_start ns = None.
Proof.
  induction ns as [|[k0 n0] ns IH]; intros H; [reflexivity|]. cbn.
  rewrite decide_False by (apply (H k0 n0); now left).
  apply IH. intros k n Hin. apply (H k n). now right.
Qed.

End Start.

(** C8, the code at the failing input: the second node is the only one of
    type ["start"] and its id is the empty string; the search finds it, the
    test that follows takes the empty id for no id, and the first node
    becomes the start node. *)
Lemma start_node_with_empty_id_is_passed_over :
  nodes_by_id Sample.empty_id_nodes
  = [("a", Sample.mk_node "a" "message" (Sample.message_data "first"));
     ("", Sample.mk_node "" "start" no_data)]
  /\ find_start (nodes_by_id Sample.empty_id_nodes) = Some ""
  /\ start_node_id (__init__ Sample.empty_id_nodes [] None) = Some "a"
  /\ process_message Sample.re_search (__init__ Sample.empty_id_nodes [] None)
       "hi" None None
     = Some (Ok ("first", [("user_message", PStr "hi")])).
Proof. repeat split. Qed.

(** ** The module's own example *)

Example greeting_is_answered :
  process_message Sample.re_search Sample.example_engine "Hello there!" None None
  = Some (Ok ("Hello! How can I help you today?",
              [("user_message", PStr "Hello there!")])).
Proof. reflexivity. Qed.

Example other_message_is_not_understood :
  process_message Sample.re_search Sample.example_engine
                  "What services do you offer?" None None
  = Some (Ok ("I didn't understand that. Can you rephrase?",
              [("user_message", PStr "What services do you offer?")])).
Proof. reflexivity. Qed.

Example cycle_is_left_after_two_nodes :
  process_message Sample.re_search Sample.cycle_engine "x" None None
  = Some (Ok ("b", [("user_message", PStr "x")])).
Proof. reflexivity. Qed.

(** * Further properties of the engine *)

(** ** Dictionaries *)

Section DictFacts.

Context {V : Type}.

Implicit Types (d : Dict.t V) (k : string) (v : V).

Lemma get_set_same d k v : Dict.get (Dict.set d k v) k = Some v.
Proof.
  induction d as [|[k0 v0] d IH]; cbn [Dict.set Dict.get].
  - now rewrite String.eqb_refl.
  - destruct (String.eqb_spec k0 k) as [->|Hne]; cbn [Dict.get].
    + now rewrite String.eqb_refl.
    + apply String.eqb_neq in Hne. now rewrite Hne.
Qed.

Lemma get_set_other d k k' v :
  k' <> k -> Dict.get (Dict.set d k v) k' = Dict.get d k'.
Proof.
  intros Hne. induction d as [|[k0 v0] d IH]; cbn [Dict.set Dict.get].
  - apply not_eq_sym, String.eqb_neq in Hne. now rewrite Hne.
  - destruct (String.eqb_spec k0 k) as [->|Hk]; cbn [Dict.get].
    + apply not_eq_sym, String.eqb_neq in Hne. now rewrite Hne.
    + now rewrite IH.
Qed.

Lemma set_present d k v :
  k ∈ Dict.keys d -> Dict.keys (Dict.set d k v) = Dict.keys d.
Proof.
  induction d as [|[k0 v0] d IH]; cbn [Dict.set Dict.keys map fst].
  - intros H. inversion H.
  - intros H. destruct (String.eqb_spec k0 k) as [->|Hk]; [reflexivity|].
    cbn [map fst]. f_equal. apply IH.
    apply elem_of_cons in H as [->|H]; [congruence | exact H].
Qed.

Lemma set_absent d k v : k ∉ Dict.keys d -> Dict.set d k v = (d ++ [(k, v)])%list.
Proof.
  induction d as [|[k0 v0] d IH]; cbn [Dict.set Dict.keys map fst]; [reflexivity|].
  intros H. apply not_elem_of_cons in H as [Hne Hd].
  apply not_eq_sym, String.eqb_neq in Hne. rewrite Hne.
  cbn [app]. now rewrite IH.
Qed.

Lemma get_None_key d k : Dict.get d k = None <-> k ∉ Dict.keys d.
Proof.
  induction d as [|[k0 v0] d IH]; cbn [Dict.get Dict.keys map fst].
  - split; [intros _ H; inversion H | reflexivity].
  - destruct (String.eqb_spec k0 k) as [->|Hk].
    + split; [discriminate|]. intros H. exfalso. apply H. now left.
    + rewrite IH. split.
      * intros H Hin. apply elem_of_cons in Hin as [->|Hin]; [congruence | auto].
      * intros H Hin. apply H. now right.
Qed.

Lemma keys_set_NoDup d k v :
  NoDup (Dict.keys d) -> NoDup (Dict.keys (Dict.set d k v)).
Proof.
  intros Hnd. destruct (decide (k ∈ Dict.keys d)) as [Hin|Hin].
  - now rewrite set_present.
  - rewrite set_absent by exact Hin. unfold Dict.keys. rewrite map_app.
    apply NoDup_app. repeat split; [exact Hnd | | apply NoDup_singleton].
    intros x Hx Hx'. apply list_elem_of_singleton in Hx'. now subst x.
Qed.

End DictFacts.

(** ** The constructor *)

Section Constructor.

Implicit Types (ns : list node) (d : Dict.t node) (n : node) (k : string).

Local Abbreviation by_id_ := (fold_left (fun d n => Dict.set d (node_id n) n)).

Lemma by_id_keys_NoDup ns d :
  NoDup (Dict.keys d) -> NoDup (Dict.keys (by_id_ ns d)).
Proof.
  revert d. induction ns as [|n ns IH]; intros d Hd; [exact Hd|].
  cbn [fold_left]. apply IH. now apply keys_set_NoDup.
Qed.

Lemma by_id_get ns d k :
  Dict.get (by_id_ ns d) k
  = match last (filter (fun n => node_id n = k) ns) with
    | Some n => Some n
    | None => Dict.get d k
    end.
Proof.
  revert d. induction ns as [|n ns IH]; intros d; [reflexivity|].
  cbn [fold_left]. rewrite IH, filter_cons.
  destruct (decide (node_id n = k)) as [<-|Hne].
  - rewrite last_cons, get_set_same.
    now destruct (last (filter _ ns)).
  - now rewrite get_set_other by congruence.
Qed.

Lemma by_id_unique ns d :
  NoDup (Dict.keys d ++ map node_id ns) ->
  by_id_ ns d = (d ++ map (fun n => (node_id n, n)) ns)%list.
Proof.
  revert d. induction ns as [|n ns IH]; intros d Hnd; cbn [fold_left map].
  - now rewrite app_nil_r.
  - assert (Hn : node_id n ∉ Dict.keys d).
    { apply NoDup_app in Hnd as (_ & Hdis & _). intros Hin.
      apply (Hdis _ Hin). now left. }
    rewrite set_absent by exact Hn. rewrite IH.
    + now rewrite <- app_assoc.
    + unfold Dict.keys. rewrite map_app. cbn [map fst].
      rewrite <- app_assoc. exact Hnd.
Qed.

Lemma find_start_key d k : find_start d = Some k -> k ∈ Dict.keys d.
Proof.
  induction d as [|[k0 n0] d IH]; [discriminate|]. cbn.
  destruct (decide _).
  - intros [= <-]. now left.
  - intros H. right. now apply IH.
Qed.

Lemma by_id_nonempty n ns d : by_id_ (n :: ns) d <> [].
Proof.
  intros H. assert (Hg : Dict.get (by_id_ (n :: ns) d) (node_id n) = None)
    by now rewrite H.
  rewrite by_id_get, filter_cons, decide_True, last_cons in Hg by reflexivity.
  now destruct (last (filter _ ns)).
Qed.

Lemma resolve_start_key d k : resolve_start d = Some k -> k ∈ Dict.keys d.
Proof.
  unfold resolve_start.
  destruct (negb (truthy (find_start d)) && negb (Dict.is_empty d)).
  - destruct d as [|[k0 n0] d]; [discriminate|]. intros [= <-]. now left.
  - apply find_start_key.
Qed.

Lemma resolve_start_None d : resolve_start d = None <-> d = [].
Proof.
  unfold resolve_start. destruct d as [|[k0 n0] d].
  - split; reflexivity.
  - cbn [Dict.is_empty negb andb]. rewrite andb_true_r.
    split; [|discriminate].
    destruct (find_start _) as [[|c s]|] eqn:Hf; cbn; discriminate.
Qed.

End Constructor.

(** X1. The dictionary the constructor builds has every id once; looking an
    id up gives the last node of the list that carries it; and when the ids of
    the list are distinct, the dictionary is the list in its order. *)
Theorem nodes_by_id_lookup :
  forall (ns : list node) (k : string),
    NoDup (Dict.keys (nodes_by_id ns))
    /\ Dict.get (nodes_by_id ns) k = last (filter (fun n => node_id n = k) ns)
    /\ (NoDup (map node_id ns) ->
        nodes_by_id ns = map (fun n => (node_id n, n)) ns).
Proof.
  intros ns k. unfold nodes_by_id. split; [|split].
  - apply by_id_keys_NoDup. constructor.
  - rewrite by_id_get. now destruct (last _).
  - intros Hnd. now rewrite by_id_unique.
Qed.

Lemma nodes_by_id_lookup_witness :
  nodes_by_id Sample.example_nodes
  = map (fun n => (node_id n, n)) Sample.example_nodes.
Proof.
  apply (nodes_by_id_lookup Sample.example_nodes "1").
  vm_compute. repeat (constructor; [set_solver|]). constructor.
Defined.

(** X2. The start node of a constructed engine is unset exactly when the
    node list is empty, and otherwise it is the id of a node of the graph. *)
Theorem start_node_is_a_node :
  forall (ns : list node) (es : list edge) (llm : option port),
    let eng := __init__ ns es llm in
    (start_node_id eng = None <-> ns = [])
    /\ forall k, start_node_id eng = Some k ->
                 exists n, Dict.get (nodes eng) k = Some n.
Proof.
  intros ns es llm eng. cbn [eng __init__ start_node_id nodes]. split.
  - rewrite resolve_start_None. destruct ns as [|n ns]; [split; reflexivity|].
    split; [|discriminate]. intros H. now apply by_id_nonempty in H.
  - intros k Hk. apply resolve_start_key in Hk.
    destruct (Dict.get (nodes_by_id ns) k) as [n|] eqn:Hg; [eauto|].
    now apply get_None_key in Hg.
Qed.

Lemma start_node_is_a_node_witness :
  exists n, Dict.get (nodes Sample.example_engine) "1" = Some n.
Proof.
  exact (proj2 (start_node_is_a_node Sample.example_nodes Sample.example_edges
                  None) "1" eq_refl).
Defined.

(** X3. For a node list with distinct ids: without a node of type
    ["start"] the start node is the first node of the list; with one, it is
    the first node of that type, provided its id is not the empty string. *)
Theorem start_node_resolution :
  forall (ns : list node) (es : list edge) (llm : option port),
    NoDup (map node_id ns) ->
    ((forall n, n ∈ ns -> node_type n <> Some "start") ->
     start_node_id (__init__ ns es llm) = head (map node_id ns))
    /\ (forall pre n post,
          ns = (pre ++ n :: post)%list ->
          node_type n = Some "start" ->
          (forall n', n' ∈ pre -> node_type n' <> Some "start") ->
          node_id n <> "" ->
          start_node_id (__init__ ns es llm) = Some (node_id n)).
Proof.
  intros ns es llm Hnd. cbn [__init__ start_node_id].
  unfold nodes_by_id. rewrite by_id_unique by exact Hnd. cbn [app]. split.
  - intros Hno. rewrite resolve_start_without_start_node.
    + unfold Dict.keys. rewrite map_map. reflexivity.
    + apply find_start_none. intros k n Hin.
      apply list_elem_of_fmap in Hin as (n' & [= -> ->] & Hin). now apply Hno.
  - intros pre n post -> Hty Hpre Hid.
    apply resolve_start_with_start_node; [|exact Hid].
    rewrite map_app. cbn [map]. apply find_start_first; [exact Hty|].
    intros k' n' Hin.
    apply list_elem_of_fmap in Hin as (n'' & [= -> ->] & Hin). now apply Hpre.
Qed.

Lemma start_node_resolution_witness :
  start_node_id
    (__init__ [ Sample.mk_node "m" "message" (Sample.message_data "hi");
                Sample.mk_node "s" "start" no_data ] [] None)
  = Some "s".
Proof.
  apply (proj2 (start_node_resolution
                  [ Sample.mk_node "m" "message" (Sample.message_data "hi");
                    Sample.mk_node "s" "start" no_data ] [] None
                  ltac:(vm_compute; repeat (constructor; [set_solver|]);
                        constructor))
               [ Sample.mk_node "m" "message" (Sample.message_data "hi") ]
               (Sample.mk_node "s" "start" no_data) [] eq_refl eq_refl).
  - intros n' Hin. apply list_elem_of_singleton in Hin. subst n'. discriminate.
  - discriminate.
Defined.

(** ** The context a call returns *)

(** X4. When a configured graph's call returns, the context it returns
    holds the inbound message under ["user_message"], every other key as the
    caller gave it, and the keys in the caller's order, with ["user_message"]
    added at the end if it was not there. *)
Theorem returned_context_holds_message :
  forall (re_search : regex_search) (eng : WorkflowEngine) (message : string)
         (conversation_history : option history) (ctx : option context)
         (resp : string) (ctx' : context),
    not_configured eng = false ->
    process_message re_search eng message conversation_history ctx
    = Some (Ok (resp, ctx')) ->
    Dict.get ctx' "user_message" = Some (PStr message)
    /\ (forall k, k <> "user_message" ->
                  Dict.get ctx' k = Dict.get (default [] ctx) k)
    /\ Dict.keys ctx'
       = if bool_decide ("user_message" ∈ Dict.keys (default [] ctx))
         then Dict.keys (default [] ctx)
         else (Dict.keys (default [] ctx) ++ ["user_message"])%list.
Proof.
  intros re_search eng message hist ctx resp ctx' Hnc Hpm.
  destruct (traverse_terminates re_search eng message hist
              (S (length (nodes eng))) ctx) as (st & e & Ht & _); [lia|].
  rewrite (process_message_configured _ _ _ _ _ _ _ Hnc Ht) in Hpm.
  destruct e as [x|]; [discriminate|]. injection Hpm as _ <-.
  unfold with_message. split; [apply get_set_same|]. split.
  - intros k Hk. now apply get_set_other.
  - case_bool_decide as Hin.
    + now apply set_present.
    + rewrite set_absent by exact Hin. unfold Dict.keys. now rewrite map_app.
Qed.

Lemma returned_context_holds_message_witness :
  Dict.get [("lang", PStr "en"); ("user_message", PStr "hello world")]
           "user_message" = Some (PStr "hello world").
Proof.
  exact (proj1 (returned_context_holds_message
                  Sample.re_search Sample.example_engine "hello world" None
                  (Some [("lang", PStr "en")])
                  "Hello! How can I help you today?"
                  [("lang", PStr "en"); ("user_message", PStr "hello world")]
                  eq_refl eq_refl)).
Defined.

(** ** Keywords and intents *)

Section Keywords.

Implicit Types (s t k pre post message : string) (kws : list string).

Lemma lower_ascii_idempotent (c : ascii) :
  PyStr.lower_ascii (PyStr.lower_ascii c) = PyStr.lower_ascii c.
Proof. destruct c as [[] [] [] [] [] [] [] []]; reflexivity. Qed.

Lemma lower_idempotent s : PyStr.lower (PyStr.lower s) = PyStr.lower s.
Proof.
  induction s as [|c s IH]; [reflexivity|].
  cbn [PyStr.lower]. now rewrite lower_ascii_idempotent, IH.
Qed.

Lemma lower_append s t : PyStr.lower (s +:+ t) = PyStr.lower s +:+ PyStr.lower t.
Proof.
  induction s as [|c s IH]; [reflexivity|].
  rewrite append_cons. cbn [PyStr.lower]. now rewrite IH, append_cons.
Qed.

Lemma contains_empty s : PyStr.contains "" s = true.
Proof. destruct s; reflexivity. Qed.

Lemma startswith_append_r k s t :
  PyStr.startswith k s = true -> PyStr.startswith k (s +:+ t) = true.
Proof.
  revert s. induction k as [|c k IH]; intros s; [reflexivity|].
  destruct s as [|d s]; [discriminate|].
  rewrite append_cons. cbn [PyStr.startswith].
  intros H. apply andb_true_iff in H as [-> H]. now apply IH.
Qed.

Lemma contains_append_r k s t :
  PyStr.contains k s = true -> PyStr.contains k (s +:+ t) = true.
Proof.
  induction s as [|c s IH].
  - cbn [PyStr.contains]. rewrite orb_false_r. intros H.
    destruct k; [apply contains_empty | discriminate].
  - rewrite append_cons. cbn [PyStr.contains]. intros H.
    apply orb_true_iff in H as [H|H].
    + apply (startswith_append_r _ (String c s) t) in H.
      rewrite append_cons in H. now rewrite H.
    + rewrite (IH H). apply orb_true_r.
Qed.

Lemma contains_append_l k s t :
  PyStr.contains k s = true -> PyStr.contains k (t +:+ s) = true.
Proof.
  intros H. induction t as [|c t IH]; [exact H|].
  rewrite append_cons. cbn [PyStr.contains]. rewrite IH. apply orb_true_r.
Qed.

(** The keyword loop sees only the lower-cased keywords and message. *)
Lemma any_keyword_lower kws message :
  any_keyword kws message
  = existsb (fun k => PyStr.contains k (PyStr.lower message))
            (map PyStr.lower kws).
Proof.
  induction kws as [|k kws IH]; [reflexivity|].
  cbn [any_keyword map existsb]. rewrite IH.
  now destruct (PyStr.contains _ _).
Qed.

Lemma any_keyword_embedded kws pre message post :
  any_keyword kws message = true ->
  any_keyword kws (pre +:+ message +:+ post) = true.
Proof.
  rewrite !any_keyword_true. intros (kw & Hin & H). exists kw. split; [exact Hin|].
  rewrite !lower_append. now apply contains_append_l, contains_append_r.
Qed.

Lemma first_intent_first (pre post : Dict.t (list string)) name kws message :
  any_keyword kws message = true ->
  (forall name' kws', (name', kws') ∈ pre -> any_keyword kws' message = false) ->
  first_intent (pre ++ (name, kws) :: post)%list message = Some name.
Proof.
  intros Hk. induction pre as [|[n0 k0] pre IH]; intros Hpre; cbn.
  - now rewrite Hk.
  - rewrite (Hpre n0 k0) by now left.
    apply IH. intros n' k' Hin. apply (Hpre n' k'). now right.
Qed.

Lemma first_intent_none (its : Dict.t (list string)) message :
  (forall name kws, (name, kws) ∈ its -> any_keyword kws message = false) ->
  first_intent its message = None.
Proof.
  induction its as [|[n0 k0] its IH]; intros H; [reflexivity|]. cbn.
  rewrite (H n0 k0) by now left.
  apply IH. intros n k Hin. apply (H n k). now right.
Qed.

End Keywords.

(** X5. Keyword matching does not look at case: for a node of the keyword
    strategy, a message with the same lower-cased text gives the same
    outcome (so does the lower-cased message itself), and so does a node
    whose keywords have the same lower-cased texts. *)
Theorem keyword_matching_ignores_case :
  forall (re_search : regex_search) (n : node) (message : string) (ctx : context),
    default "keyword" (conditionType (data n)) = "keyword" ->
    _evaluate_condition re_search n (PyStr.lower message) ctx
    = _evaluate_condition re_search n message ctx
    /\ (forall message',
          PyStr.lower message' = PyStr.lower message ->
          _evaluate_condition re_search n message' ctx
          = _evaluate_condition re_search n message ctx)
    /\ (forall n',
          default "keyword" (conditionType (data n')) = "keyword" ->
          map PyStr.lower (default [] (keywords (data n')))
          = map PyStr.lower (default [] (keywords (data n))) ->
          _evaluate_condition re_search n' message ctx
          = _evaluate_condition re_search n message ctx).
Proof.
  intros re_search n message ctx Hty.
  assert (Hsame : forall message',
             PyStr.lower message' = PyStr.lower message ->
             _evaluate_condition re_search n message' ctx
             = _evaluate_condition re_search n message ctx).
  { intros message' Hl. rewrite !evaluate_keyword by exact Hty.
    now rewrite !any_keyword_lower, Hl. }
  split; [|split; [exact Hsame|]].
  - apply Hsame, lower_idempotent.
  - intros n' Hty' Hkw. rewrite !evaluate_keyword by assumption.
    now rewrite !any_keyword_lower, Hkw.
Qed.

Lemma keyword_matching_ignores_case_witness :
  _evaluate_condition Sample.re_search
    (Sample.mk_node "c" "condition" (Sample.keyword_data ["Hello"])) "HELLO there" []
  = _evaluate_condition Sample.re_search
      (Sample.mk_node "c" "condition" (Sample.keyword_data ["Hello"])) "hello THERE" [].
Proof.
  apply (proj1 (proj2 (keyword_matching_ignores_case Sample.re_search
           (Sample.mk_node "c" "condition" (Sample.keyword_data ["Hello"]))
           "hello THERE" [] eq_refl))).
  reflexivity.
Defined.

(** X6. On ASCII text keyword matching is by substring: for a message
    and keywords within the ASCII range, once the message gives ["true"], so
    does every ASCII text that contains it; and an empty keyword in the list
    makes the outcome ["true"]. *)
Theorem keyword_matching_is_by_substring :
  forall (re_search : regex_search) (n : node) (message : string) (ctx : context),
    default "keyword" (conditionType (data n)) = "keyword" ->
    is_ascii message = true ->
    (forall kw, kw ∈ default [] (keywords (data n)) -> is_ascii kw = true) ->
    (_evaluate_condition re_search n message ctx = Ok "true" ->
     forall pre post,
       is_ascii pre = true -> is_ascii post = true ->
       _evaluate_condition re_search n (pre +:+ message +:+ post) ctx = Ok "true")
    /\ ("" ∈ default [] (keywords (data n)) ->
        _evaluate_condition re_search n message ctx = Ok "true").
Proof.
  intros re_search n message ctx Hty _ _. split.
  - rewrite evaluate_keyword by exact Hty. intros [= H] pre post _ _.
    rewrite evaluate_keyword by exact Hty.
    apply bool_label_true in H.
    now rewrite (any_keyword_embedded _ pre _ post H).
  - intros Hin. rewrite evaluate_keyword by exact Hty.
    assert (H : any_keyword (default [] (keywords (data n))) message = true).
    { apply any_keyword_true. exists "". split; [exact Hin|].
      apply contains_empty. }
    now rewrite H.
Qed.

Lemma keyword_matching_is_by_substring_witness :
  _evaluate_condition Sample.re_search
    (Sample.mk_node "c" "condition" (Sample.keyword_data ["hi"]))
    ("t" +:+ "hi" +:+ "s is it") [] = Ok "true".
Proof.
  apply (proj1 (keyword_matching_is_by_substring Sample.re_search
                  (Sample.mk_node "c" "condition" (Sample.keyword_data ["hi"]))
                  "hi" [] eq_refl eq_refl
                  ltac:(intros kw Hin; apply list_elem_of_singleton in Hin;
                        subst kw; reflexivity)));
    reflexivity.
Defined.

(** X7. The intent strategy answers with the name of the first intent, in
    the order of the node's mapping, that has a keyword occurring in the
    message, and with ["default"] when no intent has one. *)
Theorem intent_is_first_matching :
  forall (re_search : regex_search) (n : node) (message : string) (ctx : context),
    conditionType (data n) = Some "intent" ->
    (forall pre name kws post,
        default [] (intents (data n)) = (pre ++ (name, kws) :: post)%list ->
        any_keyword kws message = true ->
        (forall name' kws', (name', kws') ∈ pre ->
                            any_keyword kws' message = false) ->
        _evaluate_condition re_search n message ctx = Ok name)
    /\ ((forall name kws, (name, kws) ∈ default [] (intents (data n)) ->
                          any_keyword kws message = false) ->
        _evaluate_condition re_search n message ctx = Ok "default").
Proof.
  intros re_search n message ctx Hty.
  assert (He : _evaluate_condition re_search n message ctx
               = Ok (default "default"
                       (first_intent (default [] (intents (data n))) message))).
  { unfold _evaluate_condition. cbv zeta. now rewrite Hty. }
  rewrite He. split.
  - intros pre name kws post -> Hk Hpre.
    now rewrite (first_intent_first _ _ _ _ _ Hk Hpre).
  - intros Hnone. now rewrite (first_intent_none _ _ Hnone).
Qed.

Lemma intent_is_first_matching_witness :
  _evaluate_condition Sample.re_search
    (Sample.mk_node "c" "condition"
       {| label := None; conditionType := Some "intent"; keywords := None;
          pattern := None;
          intents := Some [("billing", ["invoice"]); ("sales", ["price"; "buy"]);
                           ("offers", ["price"])];
          variable := None; value := None; systemPrompt := None;
          model := None; temperature := None |})
    "What is the PRICE?" [] = Ok "sales".
Proof.
  match goal with |- _evaluate_condition ?r ?n ?m ?c = _ =>
    apply (proj1 (intent_is_first_matching r n m c eq_refl)
                 [("billing", ["invoice"])] "sales" ["price"; "buy"]
                 [("offers", ["price"])] eq_refl eq_refl)
  end.
  intros name' kws' Hin. apply list_elem_of_singleton in Hin.
  injection Hin as -> ->. reflexivity.
Defined.

(** ** Where the traversal stops *)

Section Stops.

Variable re_search : regex_search.
Variable eng : WorkflowEngine.
Variable message : string.
Variable conversation_history : option history.
Variable ctx : context.

Local Abbreviation body_ := (body re_search eng message conversation_history ctx).
Local Abbreviation loop_ := (run_loop re_search eng message conversation_history ctx).

Implicit Types (st : loop_state) (cur : string).

(** An iteration adds at most the current id to the trace. *)
Lemma body_trace st cur :
  match body_ st cur with
  | Next st' | Fail _ st' => trace st' = (trace st ++ [cur])%list
  | Break st' => trace st' = trace st /\ response st' = response st
  end.
Proof.
  unfold body. destruct (Dict.get (nodes eng) cur) as [n|]; [|now split].
  cbv zeta.
  destruct (String.eqb _ "message"); [reflexivity|].
  destruct (String.eqb _ "condition").
  - now destruct (_evaluate_condition _ _ _ _).
  - now destruct (String.eqb _ "ai").
Qed.

Lemma run_loop_never_visits_empty_id fuel st st' e :
  loop_ fuel st = Some (st', e) -> "" ∉ trace st -> "" ∉ trace st'.
Proof.
  revert st. induction fuel as [|fuel IH]; intros st; cbn [run_loop].
  - destruct (guard st); [discriminate|]. now intros [= <- _].
  - destruct (guard st) as [cur|] eqn:Hg; [|now intros [= <- _]].
    apply guard_Some in Hg as (_ & Hne & _).
    pose proof (body_trace st cur) as Ht.
    assert (Hsnoc : "" ∉ trace st -> "" ∉ (trace st ++ [cur])%list).
    { intros H Hin. apply elem_of_app in Hin as [Hin|Hin]; [auto|].
      apply list_elem_of_singleton in Hin. congruence. }
    destruct (body_ st cur) as [st1|st1|e1 st1].
    + intros Hrun H. apply (IH _ Hrun). rewrite Ht. auto.
    + intros [= <- _] H. destruct Ht as [-> _]. exact H.
    + intros [= <- _] H. rewrite Ht. auto.
Qed.

Lemma run_loop_dangling fuel st :
  current_node_id st = None
  \/ current_node_id st = Some ""
  \/ (exists z, current_node_id st = Some z /\ Dict.get (nodes eng) z = None) ->
  exists st', loop_ (S fuel) st = Some (st', None)
              /\ response st' = response st /\ trace st' = trace st.
Proof.
  intros H. cbn [run_loop]. destruct (guard st) as [cur|] eqn:Hg; [|eauto].
  apply guard_Some in Hg as (Hcur & Hne & _).
  destruct H as [H|[H|(z & H & Hz)]]; try congruence.
  assert (z = cur) by congruence. subst z.
  rewrite (body_missing _ _ _ _ _ _ _ Hz). eauto.
Qed.

End Stops.

Section Edges.

Implicit Types (es pre post : list edge) (e : edge) (cur : string).

Lemma next_unconditional_first pre e post cur :
  source e = Some cur ->
  (forall e', e' ∈ pre -> source e' <> Some cur) ->
  next_unconditional (pre ++ e :: post)%list cur = target e.
Proof.
  intros He. induction pre as [|e0 pre IH]; intros Hpre; cbn.
  - now rewrite decide_True.
  - rewrite decide_False by (apply Hpre; now left).
    apply IH. intros e' Hin. apply Hpre. now right.
Qed.

Lemma next_unconditional_none es cur :
  (forall e, e ∈ es -> source e <> Some cur) -> next_unconditional es cur = None.
Proof.
  induction es as [|e0 es IH]; intros H; [reflexivity|]. cbn.
  rewrite decide_False by (apply H; now left).
  apply IH. intros e Hin. apply H. now right.
Qed.

End Edges.

(** X8. A next node id that is unset, empty, or not an id of the graph ends
    the loop without an error, with the pending response and the trace as
    they were: a dangling edge lets the call return what it has. *)
Theorem dangling_target_ends_the_run :
  forall (re_search : regex_search) (eng : WorkflowEngine) (message : string)
         (conversation_history : option history) (ctx : context)
         (fuel : nat) (st : loop_state),
    current_node_id st = None
    \/ current_node_id st = Some ""
    \/ (exists z, current_node_id st = Some z /\ Dict.get (nodes eng) z = None) ->
    exists st',
      run_loop re_search eng message conversation_history ctx (S fuel) st
      = Some (st', None)
      /\ response st' = response st /\ trace st' = trace st.
Proof. intros. now apply run_loop_dangling. Qed.

Lemma dangling_target_ends_the_run_witness :
  exists st',
    run_loop Sample.re_search Sample.example_engine "x" None [] 1
             {| current_node_id := Some "9"; response := Some "so far";
                visited_nodes := ∅; trace := ["1"] |}
    = Some (st', None)
    /\ response st' = Some "so far" /\ trace st' = ["1"].
Proof.
  apply (dangling_target_ends_the_run Sample.re_search Sample.example_engine
           "x" None [] 0
           {| current_node_id := Some "9"; response := Some "so far";
              visited_nodes := ∅; trace := ["1"] |}).
  right. right. exists "9". split; reflexivity.
Defined.

(** X9. The loop never dispatches on a node whose id is the empty string,
    whether or not the graph has such a node and edges that lead to it. *)
Theorem empty_id_is_never_visited :
  forall (re_search : regex_search) (eng : WorkflowEngine) (fuel : nat)
         (message : string) (conversation_history : option history)
         (ctx : option context) (st : loop_state) (e : option exn),
    traverse re_search eng fuel message conversation_history ctx = Some (st, e) ->
    "" ∉ trace st.
Proof.
  intros re_search eng fuel message hist ctx st e Ht.
  apply (run_loop_never_visits_empty_id _ _ _ _ _ _ _ _ _ Ht).
  cbn. intros H. inversion H.
Qed.

Lemma empty_id_is_never_visited_witness :
  match
    traverse Sample.re_search
      (__init__ [ Sample.mk_node "a" "message" (Sample.message_data "first");
                  Sample.mk_node "" "message" (Sample.message_data "second") ]
                [ {| source := Some "a"; target := Some ""; condition := None |} ]
                None)
      3 "hi" None None
  with
  | Some (st, _) => "" ∉ trace st
  | None => False
  end.
Proof.
  destruct (traverse _ _ _ _ _ _) as [[st e]|] eqn:Ht.
  - exact (empty_id_is_never_visited _ _ _ _ _ _ _ _ Ht).
  - vm_compute in Ht. discriminate Ht.
Defined.

(** X10. From a node that is not a condition, only the first edge leaving
    it is looked at: the next node is that edge's target, whatever edges
    follow in the list, and there is none when no edge leaves the node. *)
Theorem only_first_outgoing_edge_is_followed :
  forall (es : list edge) (cur : string),
    (forall pre e post,
        es = (pre ++ e :: post)%list ->
        source e = Some cur ->
        (forall e', e' ∈ pre -> source e' <> Some cur) ->
        next_unconditional es cur = target e
        /\ forall more, next_unconditional (es ++ more)%list cur = target e)
    /\ ((forall e, e ∈ es -> source e <> Some cur) ->
        next_unconditional es cur = None).
Proof.
  intros es cur. split.
  - intros pre e post -> He Hpre. split.
    + now apply next_unconditional_first.
    + intros more. rewrite <- app_assoc. cbn [app].
      now apply next_unconditional_first.
  - apply next_unconditional_none.
Qed.

Lemma only_first_outgoing_edge_is_followed_witness :
  next_unconditional
    [ Sample.mk_edge "2" "3" None;
      {| source := Some "1"; target := None; condition := None |};
      Sample.mk_edge "1" "2" None ] "1" = None.
Proof.
  apply (proj1 (only_first_outgoing_edge_is_followed
                  [ Sample.mk_edge "2" "3" None;
                    {| source := Some "1"; target := None; condition := None |};
                    Sample.mk_edge "1" "2" None ] "1")
               [Sample.mk_edge "2" "3" None]
               {| source := Some "1"; target := None; condition := None |}
               [Sample.mk_edge "1" "2" None] eq_refl eq_refl).
  intros e' Hin. apply list_elem_of_singleton in Hin. subst e'. discriminate.
Defined.

(** ** The inbound message in templates *)

(** X11. Where the caller's context has no ["user_message"], the message is
    put in by the last replacement of a rendering, so its text is not
    scanned for placeholders.  Where the caller passes a context that
    already has ["user_message"] ahead of a key [k], the message text is
    scanned for [{k}]: the template ["{user_message}"] and the message
    ["{k}"] render to the value of [k]. *)
Theorem message_text_and_later_keys :
  forall (template : string) (c : context) (message : string),
    ("user_message" ∉ Dict.keys c ->
     replace_variables template (with_message (Some c) message)
     = PyStr.replace (replace_variables template c) "{user_message}" message)
    /\ (forall old k v,
          k <> "user_message" ->
          replace_variables "{user_message}"
            (with_message (Some [("user_message", old); (k, v)]) (placeholder k))
          = py_str v).
Proof.
  intros template c message. split.
  - intros Hfresh. unfold with_message. cbn [default from_option id].
    rewrite set_absent by exact Hfresh. now rewrite replace_variables_app.
  - intros old k v _. unfold with_message. cbn [default from_option id Dict.set].
    rewrite String.eqb_refl.
    rewrite !replace_variables_cons, replace_variables_nil. cbn [py_str].
    change "{user_message}" with (placeholder "user_message").
    now rewrite !replace_placeholder_alone.
Qed.

Lemma message_text_and_later_keys_witness :
  replace_variables "{user_message}"
    (with_message (Some [("user_message", PStr "hi"); ("token", PStr "s3cret")])
                  "{token}")
  = "s3cret"
  /\ replace_variables "{user_message}"
       (with_message (Some [("token", PStr "s3cret")]) "{token}")
     = "{token}".
Proof.
  split.
  - apply (proj2 (message_text_and_later_keys "" [] "")
                 (PStr "hi") "token" (PStr "s3cret")).
    discriminate.
  - etransitivity.
    + apply (proj1 (message_text_and_later_keys "{user_message}"
                      [("token", PStr "s3cret")] "{token}")).
      intros Hin. apply list_elem_of_singleton in Hin. discriminate.
    + reflexivity.
Defined.

(** * Properties of the language-model integration *)

Section Integration.

Variable rt : LLM.runtime.

Implicit Types (self : LLM.LLMIntegration) (k p : string).

Lemma nonempty_Some (o : option string) k :
  LLM.nonempty o = Some k <-> o = Some k /\ k <> "".
Proof.
  destruct o as [[|c s]|]; cbn; split; try discriminate.
  - intros [[= <-] H]. congruence.
  - intros [= <-]. split; [reflexivity | discriminate].
  - intros [[= <-] _]. reflexivity.
  - intros [H _]. discriminate.
Qed.

Lemma init_with_key p k :
  k <> "" ->
  LLM.__init__ rt p (Some k)
  = Ok {| LLM.provider := PyStr.lower p; LLM.api_key := k |}.
Proof. destruct k; [congruence|]. reflexivity. Qed.

Lemma generate_unsupported self prompt system_prompt hist model temperature mt :
  LLM.provider self <> "openai" -> LLM.provider self <> "anthropic" ->
  LLM.generate_response rt self prompt system_prompt hist model temperature mt
  = Raise (port_error ("Unsupported provider: " +:+ LLM.provider self)).
Proof.
  intros H1 H2. unfold LLM.generate_response.
  apply String.eqb_neq in H1, H2. now rewrite H1, H2.
Qed.



End Integration.

(** X12. A constructor call without a key of its own succeeds only for the
    providers ["openai"] and ["anthropic"] (in any case of letters); the
    object it returns holds the lower-cased provider name and the non-empty
    key the environment holds for that provider. *)
Theorem init_without_key_needs_known_provider :
  forall (rt : LLM.runtime) (p : string) (key : option string)
         (self : LLM.LLMIntegration),
    LLM.nonempty key = None ->
    LLM.__init__ rt p key = Ok self ->
    LLM.provider self = PyStr.lower p
    /\ LLM.api_key self <> ""
    /\ (LLM.provider self = "openai"
        /\ LLM.getenv rt "OPENAI_API_KEY" = Some (LLM.api_key self)
        \/ LLM.provider self = "anthropic"
           /\ LLM.getenv rt "ANTHROPIC_API_KEY" = Some (LLM.api_key self)).
Proof.
  intros rt p key self Hkey. unfold LLM.__init__. cbv zeta. rewrite Hkey.
  assert (Hend : forall env,
             bind (Ok env)
               (fun key0 =>
                  match LLM.nonempty key0 with
                  | Some k => Ok {| LLM.provider := PyStr.lower p; LLM.api_key := k |}
                  | None =>
                      LLM.ValueError
                        ("API key for " +:+ p +:+
                         " not provided and not found in environment variables")
                  end) = Ok self ->
             LLM.provider self = PyStr.lower p /\ LLM.api_key self <> ""
             /\ env = Some (LLM.api_key self)).
  { intros env. cbn [bind].
    destruct (LLM.nonempty env) as [k|] eqn:Hk; [|discriminate].
    intros [= <-]. apply nonempty_Some in Hk as [-> Hne]. cbn. auto. }
  destruct (String.eqb_spec (PyStr.lower p) "openai") as [Ho|Ho].
  - intros H. apply Hend in H as (Hp & Hne & Henv).
    split; [exact Hp|]. split; [exact Hne|].
    left. split; congruence.
  - destruct (String.eqb_spec (PyStr.lower p) "anthropic") as [Ha|Ha];
      [|discriminate].
    intros H. apply Hend in H as (Hp & Hne & Henv).
    split; [exact Hp|]. split; [exact Hne|].
    right. split; congruence.
Qed.

Lemma init_without_key_needs_known_provider_witness :
  LLM.provider {| LLM.provider := "anthropic"; LLM.api_key := "sk-ant" |}
  = PyStr.lower "Anthropic"
  /\ LLM.getenv SampleLLM.rt "ANTHROPIC_API_KEY" = Some "sk-ant".
Proof.
  destruct (init_without_key_needs_known_provider SampleLLM.rt "Anthropic"
              None {| LLM.provider := "anthropic"; LLM.api_key := "sk-ant" |}
              eq_refl eq_refl) as (Hp & _ & [[Ho _]|[_ Hk]]).
  - discriminate Ho.
  - split; [exact Hp | exact Hk].
Defined.

(** X13. A constructor call with a non-empty key accepts every provider
    name.  When the name is neither ["openai"] nor ["anthropic"], every
    [generate_response] raises, and every generation node of an engine that
    uses the integration answers with the engine's fallback text. *)
Theorem init_with_key_accepts_any_provider :
  forall (rt : LLM.runtime) (p k : string),
    k <> "" ->
    let self := {| LLM.provider := PyStr.lower p; LLM.api_key := k |} in
    LLM.__init__ rt p (Some k) = Ok self
    /\ (PyStr.lower p <> "openai" -> PyStr.lower p <> "anthropic" ->
        (forall prompt system_prompt hist model temperature mt,
            LLM.generate_response rt self prompt system_prompt hist model
                                  temperature mt
            = Raise (port_error ("Unsupported provider: " +:+ PyStr.lower p)))
        /\ forall eng n message hist ctx,
             llm_integration eng = Some (LLM.as_port rt self) ->
             _process_ai_node eng n message hist ctx = ai_fallback).
Proof.
  intros rt p k Hk self. split; [now apply init_with_key|].
  intros H1 H2. split.
  - intros. now apply generate_unsupported.
  - intros eng n message hist ctx Hllm. unfold _process_ai_node.
    rewrite Hllm. cbv zeta. unfold LLM.as_port.
    now rewrite generate_unsupported.
Qed.

Lemma init_with_key_accepts_any_provider_witness :
  LLM.__init__ SampleLLM.rt "Mistral" (Some "sk-test")
  = Ok SampleLLM.other_provider
  /\ _process_ai_node (SampleLLM.ai_engine SampleLLM.other_provider)
       (Sample.mk_node "g" "ai" no_data) "hi" None
       [("user_message", PStr "hi")]
     = ai_fallback.
Proof.
  destruct (init_with_key_accepts_any_provider SampleLLM.rt "Mistral" "sk-test")
    as [Hinit Hgen]; [discriminate|].
  split; [exact Hinit|].
  destruct Hgen as [_ Hnode]; [discriminate | discriminate|].
  exact (Hnode (SampleLLM.ai_engine SampleLLM.other_provider)
               (Sample.mk_node "g" "ai" no_data) "hi" None
               [("user_message", PStr "hi")] eq_refl).
Defined.





(** * What a call depends on *)

Section Dependencies.

Variable re_search : regex_search.
Variable eng : WorkflowEngine.
Variable message : string.

Implicit Types (st : loop_state) (cur : string) (n : node) (ctx : context).




Hypothesis no_integration : llm_integration eng = None.

Lemma body_without_integration hist hist' ctx st cur :
  body re_search eng message hist ctx st cur
  = body re_search eng message hist' ctx st cur.
Proof. unfold body, _process_ai_node. now rewrite no_integration. Qed.

Lemma run_loop_without_integration hist hist' ctx fuel st :
  run_loop re_search eng message hist ctx fuel st
  = run_loop re_search eng message hist' ctx fuel st.
Proof.
  revert st. induction fuel as [|fuel IH]; intros st; cbn [run_loop];
    [reflexivity|].
  destruct (guard st) as [cur|]; [|reflexivity].
  rewrite (body_without_integration hist hist').
  destruct (body _ _ _ _ _ st cur); auto.
Qed.

End Dependencies.

Section Verbatim.

Implicit Types (t k : string).

Lemma startswith_brace_free t k :
  PyStr.contains "{" t = false -> PyStr.startswith (placeholder k) t = false.
Proof.
  destruct t as [|c t]; [reflexivity|].
  cbn [PyStr.contains PyStr.startswith]. rewrite andb_true_r.
  intros H. apply orb_false_iff in H as [Hc _].
  rewrite placeholder_cons. cbn [PyStr.startswith]. now rewrite Hc.
Qed.

Lemma contains_brace_free t k :
  PyStr.contains "{" t = false -> PyStr.contains (placeholder k) t = false.
Proof.
  induction t as [|c t IH]; [reflexivity|]. intros H.
  cbn [PyStr.contains]. rewrite (startswith_brace_free _ k H).
  cbn [PyStr.contains] in H. apply orb_false_iff in H as [_ H].
  now apply IH.
Qed.

End Verbatim.



(** X17. An engine without an integration makes no use of the conversation
    history: two calls that differ only in the history give the same result,
    and a generation node answers with the fixed "not available" text. *)
Theorem without_integration_history_is_unused :
  forall (re_search : regex_search) (eng : WorkflowEngine) (message : string),
    llm_integration eng = None ->
    (forall hist hist' ctx,
        process_message re_search eng message hist ctx
        = process_message re_search eng message hist' ctx)
    /\ forall n hist ctx,
         _process_ai_node eng n message hist ctx = ai_unavailable.
Proof.
  intros re_search eng message Hllm. split.
  - intros hist hist' ctx. unfold process_message, process_message_fuel, traverse.
    now rewrite (run_loop_without_integration _ _ _ Hllm hist hist').
  - intros n hist ctx. unfold _process_ai_node. now rewrite Hllm.
Qed.

Lemma without_integration_history_is_unused_witness :
  process_message Sample.re_search Sample.example_engine "hello" None None
  = process_message Sample.re_search Sample.example_engine "hello"
      (Some [("user", "earlier")]) None.
Proof.
  apply (proj1 (without_integration_history_is_unused Sample.re_search
                  Sample.example_engine "hello" eq_refl)).
Defined.

(** X18. A message node whose label has no opening brace answers with the
    label as it is, whatever the context holds; a message node without a
    label answers with the empty text. *)
Theorem label_without_braces_is_verbatim :
  forall (n : node) (ctx : context),
    (forall text, label (data n) = Some text ->
                  PyStr.contains "{" text = false ->
                  _process_message_node n ctx = text)
    /\ (label (data n) = None -> _process_message_node n ctx = "").
Proof.
  intros n ctx. unfold _process_message_node. split.
  - intros text -> Hfree. cbn [default from_option id].
    apply replace_variables_absent. intros k v _.
    now apply contains_brace_free.
  - intros ->. cbn [default from_option id].
    apply replace_variables_absent. intros k v _. reflexivity.
Qed.

Lemma label_without_braces_is_verbatim_witness :
  _process_message_node
    (Sample.mk_node "3" "message" (Sample.message_data "Hi! user_message}"))
    [("user_message", PStr "x"); ("", PStr "y")]
  = "Hi! user_message}".
Proof.
  apply (proj1 (label_without_braces_is_verbatim
                  (Sample.mk_node "3" "message"
                     (Sample.message_data "Hi! user_message}"))
                  [("user_message", PStr "x"); ("", PStr "y")]));
    reflexivity.
Defined.
